(** * A shallow embedding of the Prism native player core (prism_ffmpeg.c)

    The decode worker, the video frame queue, the audio ring buffer, the
    display slot, the presentation pump ([prism_player_update]) and the
    lifecycle calls are modelled as functions on an explicit player state.

    Modelling choices:
    - the FFmpeg collaborator is an input: one loop iteration of
      [decoder_thread_func] receives the result of [av_read_frame] and of the
      decode call as a [ReadResult];
    - [av_gettime()] is an input [now] (microseconds);
    - [double] time stamps and the [float] speed are rationals [Q]; audio
      samples and pictures are opaque integers (their contents);
    - the fixed arrays [video_queue[8]] and [audio_buffer] are total maps
      from index to value, written with a point update; pointers that may be
      NULL are [option]s;
    - the lock/unlock pairs are not modelled: each modelled function is one
      critical section as the code sequences them. *)

From Stdlib Require Import ZArith QArith List Bool Lia.
Import ListNotations.

Module Prism.

Open Scope Z_scope.

(** ** Enumerations of prism_ffmpeg.h *)

Inductive PrismState :=
| PRISM_STATE_IDLE
| PRISM_STATE_OPENING
| PRISM_STATE_READY
| PRISM_STATE_PLAYING
| PRISM_STATE_PAUSED
| PRISM_STATE_STOPPED
| PRISM_STATE_ERROR
| PRISM_STATE_END_OF_FILE.

Scheme Equality for PrismState.

Inductive PrismError :=
| PRISM_OK
| PRISM_ERROR_INVALID_PLAYER
| PRISM_ERROR_OPEN_FAILED
| PRISM_ERROR_NO_VIDEO_STREAM
| PRISM_ERROR_NO_AUDIO_STREAM
| PRISM_ERROR_CODEC_NOT_FOUND
| PRISM_ERROR_CODEC_OPEN_FAILED
| PRISM_ERROR_DECODE_FAILED
| PRISM_ERROR_SEEK_FAILED
| PRISM_ERROR_OUT_OF_MEMORY
| PRISM_ERROR_NOT_READY
| PRISM_ERROR_INVALID_PARAMETER.

(** ** Internal structures *)

Definition VIDEO_QUEUE_SIZE : Z := 8.

(** [VideoFrameEntry]; [data] stands for the picture held in the entry's
    pixel buffer. *)
Record VideoFrameEntry := {
  data : Z;
  width : Z;
  height : Z;
  stride : Z;
  pts : Q;
  valid : bool
}.

Definition invalidate (e : VideoFrameEntry) : VideoFrameEntry :=
  {| data := data e; width := width e; height := height e;
     stride := stride e; pts := pts e; valid := false |}.

(** Point update of an array modelled as a map from index to value. *)
Definition upd {A} (a : Z -> A) (i : Z) (x : A) : Z -> A :=
  fun j => if j =? i then x else a j.

(** The fields of [struct PrismPlayer], grouped by the part of the player
    they belong to. *)
Record VideoQueue := {
  video_queue : Z -> VideoFrameEntry;
  video_queue_write : Z;
  video_queue_read : Z;
  video_queue_count : Z
}.

Record DisplaySlot := {
  display_buffer : option Z;     (** NULL, or the picture copied in *)
  display_width : Z;
  display_height : Z;
  display_stride : Z;
  display_pts : Q;
  display_ready : bool
}.

Record AudioRing := {
  audio_buffer : option (Z -> Z); (** NULL, or the float array *)
  audio_buffer_size : Z;
  audio_write_pos : Z;
  audio_read_pos : Z;
  audio_available : Z
}.

Record Session := {
  video_stream_idx : Z;
  audio_stream_idx : Z;
  has_format_ctx : bool;
  has_video_codec_ctx : bool;
  has_audio_codec_ctx : bool;
  has_swr_ctx : bool;
  is_live : bool;
  loop : bool;
  speed : Q;
  video_width : Z;
  video_height : Z;
  video_stride : Z;
  has_video_callback : bool
}.

Record Control := {
  state : PrismState;
  stop_requested : bool;
  decoder_running : bool;
  first_frame_decoded : bool
}.

Record Clock := {
  playback_start_time : Z;
  start_pts : Q;
  current_pts : Q;
  video_pts : Q;
  audio_pts : Q
}.

Record PrismPlayer := {
  sess : Session;
  ctl : Control;
  clk : Clock;
  vq : VideoQueue;
  disp : DisplaySlot;
  ring : AudioRing
}.

(** Field setters. *)
Definition set_vq (p : PrismPlayer) (q : VideoQueue) : PrismPlayer :=
  {| sess := sess p; ctl := ctl p; clk := clk p; vq := q; disp := disp p; ring := ring p |}.
Definition set_disp (p : PrismPlayer) (d : DisplaySlot) : PrismPlayer :=
  {| sess := sess p; ctl := ctl p; clk := clk p; vq := vq p; disp := d; ring := ring p |}.
Definition set_ring (p : PrismPlayer) (r : AudioRing) : PrismPlayer :=
  {| sess := sess p; ctl := ctl p; clk := clk p; vq := vq p; disp := disp p; ring := r |}.
Definition set_ctl (p : PrismPlayer) (c : Control) : PrismPlayer :=
  {| sess := sess p; ctl := c; clk := clk p; vq := vq p; disp := disp p; ring := ring p |}.
Definition set_clk (p : PrismPlayer) (c : Clock) : PrismPlayer :=
  {| sess := sess p; ctl := ctl p; clk := c; vq := vq p; disp := disp p; ring := ring p |}.

Definition with_state (c : Control) (s : PrismState) : Control :=
  {| state := s; stop_requested := stop_requested c;
     decoder_running := decoder_running c; first_frame_decoded := first_frame_decoded c |}.
Definition with_first_frame (c : Control) (b : bool) : Control :=
  {| state := state c; stop_requested := stop_requested c;
     decoder_running := decoder_running c; first_frame_decoded := b |}.

Definition with_anchor (c : Clock) (t : Z) (spts : Q) : Clock :=
  {| playback_start_time := t; start_pts := spts; current_pts := current_pts c;
     video_pts := video_pts c; audio_pts := audio_pts c |}.
Definition with_current (c : Clock) (cur : Q) : Clock :=
  {| playback_start_time := playback_start_time c; start_pts := start_pts c;
     current_pts := cur; video_pts := video_pts c; audio_pts := audio_pts c |}.
Definition with_video_pts (c : Clock) (v : Q) : Clock :=
  {| playback_start_time := playback_start_time c; start_pts := start_pts c;
     current_pts := v; video_pts := v; audio_pts := audio_pts c |}.
Definition with_audio_pts (c : Clock) (a : Q) : Clock :=
  {| playback_start_time := playback_start_time c; start_pts := start_pts c;
     current_pts := current_pts c; video_pts := video_pts c; audio_pts := a |}.

(** ** start_decoder_thread / stop_decoder_thread

    Starting sets [stop_requested = false] and marks the thread running;
    stopping requests the stop, joins the thread (the worker observes the
    flag at the top of its next iteration) and marks it not running. *)
Definition start_decoder_thread (p : PrismPlayer) : PrismPlayer :=
  if decoder_running (ctl p) then p
  else set_ctl p {| state := state (ctl p); stop_requested := false;
                    decoder_running := true;
                    first_frame_decoded := first_frame_decoded (ctl p) |}.

Definition stop_decoder_thread (p : PrismPlayer) : PrismPlayer :=
  if negb (decoder_running (ctl p)) then p
  else set_ctl p {| state := state (ctl p); stop_requested := true;
                    decoder_running := false;
                    first_frame_decoded := first_frame_decoded (ctl p) |}.

(** ** Decode worker: pushing a video frame (decoder_thread_func)

    For a live stream a full queue first drops its oldest entry; the entry
    is then written at the write cursor if there is room, otherwise it is
    not stored. *)
Definition drop_oldest (q : VideoQueue) : VideoQueue :=
  let r := video_queue_read q in
  {| video_queue := upd (video_queue q) r (invalidate (video_queue q r));
     video_queue_write := video_queue_write q;
     video_queue_read := Z.rem (r + 1) VIDEO_QUEUE_SIZE;
     video_queue_count := video_queue_count q - 1 |}.

Definition push_video (live : bool) (q : VideoQueue) (e : VideoFrameEntry) : VideoQueue :=
  let q1 := if live && (VIDEO_QUEUE_SIZE <=? video_queue_count q)
            then drop_oldest q else q in
  if video_queue_count q1 <? VIDEO_QUEUE_SIZE then
    let idx := video_queue_write q1 in
    {| video_queue := upd (video_queue q1) idx e;
       video_queue_write := Z.rem (video_queue_write q1 + 1) VIDEO_QUEUE_SIZE;
       video_queue_read := video_queue_read q1;
       video_queue_count := video_queue_count q1 + 1 |}
  else q1.

(** A decoded video frame: anchor the clock on the first frame, push the
    converted picture, record its pts. *)
Definition decode_video (p : PrismPlayer) (now : Z) (pix : Z) (frame_pts : Q)
  : PrismPlayer :=
  let p1 := if first_frame_decoded (ctl p) then p
            else set_clk (set_ctl p (with_first_frame (ctl p) true))
                         (with_anchor (clk p) now frame_pts) in
  let s := sess p1 in
  let e := {| data := pix; width := video_width s; height := video_height s;
              stride := video_stride s; pts := frame_pts; valid := true |} in
  let p2 := set_vq p1 (push_video (is_live s) (vq p1) e) in
  set_clk p2 (with_video_pts (clk p2) frame_pts).

(** ** Decode worker: writing audio samples

    The per-sample loop: a sample is stored only while
    [audio_available < audio_buffer_size]. *)
Definition ring_put (r : AudioRing) (x : Z) : AudioRing :=
  if audio_available r <? audio_buffer_size r then
    {| audio_buffer := option_map (fun b => upd b (audio_write_pos r) x) (audio_buffer r);
       audio_buffer_size := audio_buffer_size r;
       audio_write_pos := Z.rem (audio_write_pos r + 1) (audio_buffer_size r);
       audio_read_pos := audio_read_pos r;
       audio_available := audio_available r + 1 |}
  else r.

Definition ring_write_loop (r : AudioRing) (xs : list Z) : AudioRing :=
  fold_left ring_put xs r.

(** For a live stream, drop old samples first when the new ones do not fit. *)
Definition ring_drop (r : AudioRing) (to_drop : Z) : AudioRing :=
  {| audio_buffer := audio_buffer r;
     audio_buffer_size := audio_buffer_size r;
     audio_write_pos := audio_write_pos r;
     audio_read_pos := Z.rem (audio_read_pos r + to_drop) (audio_buffer_size r);
     audio_available := audio_available r - to_drop |}.

Definition write_audio (live : bool) (r : AudioRing) (samples : list Z) : AudioRing :=
  let total_samples := Z.of_nat (length samples) in
  let r1 :=
    if live then
      let space_needed := total_samples in
      let space_available := audio_buffer_size r - audio_available r in
      if space_available <? space_needed
      then ring_drop r (space_needed - space_available)
      else r
    else r in
  ring_write_loop r1 samples.

(** ** One iteration of the decoder loop

    What [av_read_frame] and the decoder return this iteration.  [samples]
    of an audio frame are the interleaved stereo floats [swr_convert]
    produced ([samples_converted * 2] of them). *)
Inductive Payload :=
| NoFrame                                   (** send/receive failed *)
| VideoDecoded (pix : Z) (frame_pts : Q)
| AudioDecoded (frame_pts : option Q) (samples : list Z).

Inductive ReadResult :=
| ReadEOF
| ReadFailed                                (** other error or EAGAIN *)
| ReadPacket (stream_index : Z) (payload : Payload).

Inductive WorkerStep :=
| Continue (p : PrismPlayer)   (** [continue] or end of the loop body *)
| Exit (p : PrismPlayer).      (** [break]: the thread ends *)

Definition worker_state (w : WorkerStep) : PrismPlayer :=
  match w with Continue p => p | Exit p => p end.

(** The backpressure gate: queue within one slot of full and audio ring
    more than 3/4 full (or no audio stream), for a non-live source. *)
Definition backpressure (p : PrismPlayer) : bool :=
  let queue_full := VIDEO_QUEUE_SIZE - 1 <=? video_queue_count (vq p) in
  let audio_full := (audio_stream_idx (sess p) <? 0) ||
                    (Z.quot (audio_buffer_size (ring p) * 3) 4 <? audio_available (ring p)) in
  negb (is_live (sess p)) && queue_full && audio_full.

Definition decode_audio (p : PrismPlayer) (apts : option Q) (samples : list Z)
  : PrismPlayer :=
  let p1 := match apts with
            | Some a => set_clk p (with_audio_pts (clk p) a)
            | None => p end in
  if (0 <? Z.of_nat (length samples)) then
    set_ring p1 (write_audio (is_live (sess p1)) (ring p1) samples)
  else p1.

Definition decoder_iteration (p : PrismPlayer) (now : Z) (rd : ReadResult) : WorkerStep :=
  if stop_requested (ctl p) then Exit p
  else if negb (PrismState_beq (state (ctl p)) PRISM_STATE_PLAYING) then Continue p
  else if backpressure p then Continue p
  else
    match rd with
    | ReadEOF =>
        if loop (sess p) && negb (is_live (sess p)) then
          Continue (set_ctl (set_clk p (with_current (with_anchor (clk p) now 0%Q) 0%Q))
                            (with_first_frame (ctl p) false))
        else Exit (set_ctl p (with_state (ctl p) PRISM_STATE_END_OF_FILE))
    | ReadFailed => Continue p
    | ReadPacket si pl =>
        let s := sess p in
        let p1 :=
          if (si =? video_stream_idx s) && has_video_codec_ctx s then
            match pl with
            | VideoDecoded pix fpts => decode_video p now pix fpts
            | _ => p
            end
          else p in
        let p2 :=
          if (si =? audio_stream_idx s) && has_audio_codec_ctx s then
            match pl with
            | AudioDecoded apts samples =>
                if has_swr_ctx s then decode_audio p1 apts samples else p1
            | _ => p1
            end
          else p1 in
        Continue p2
    end.

(** Whether this iteration reaches [av_read_frame]: not stopping, playing,
    and not held by the backpressure gate. *)
Definition worker_reads (p : PrismPlayer) : bool :=
  negb (stop_requested (ctl p)) &&
  PrismState_beq (state (ctl p)) PRISM_STATE_PLAYING &&
  negb (backpressure p).

(** Running the worker over the collaborator's successive results, all at
    the same wall-clock time.  An iteration that does not read leaves the
    player unchanged, so with nothing else running the worker idles in that
    state for ever: the run ends there, the remaining packets unread. *)
Fixpoint run_worker (p : PrismPlayer) (now : Z) (rds : list ReadResult) : PrismPlayer :=
  match rds with
  | [] => p
  | rd :: rest =>
      if worker_reads p then
        match decoder_iteration p now rd with
        | Continue p' => run_worker p' now rest
        | Exit p' => p'
        end
      else p
  end.

(** ** Presentation pump: prism_player_update *)

(** One invocation of the video callback, with the display slot's
    buffer, width, height, stride and pts. *)
Record CallbackEvent := {
  cb_buffer : option Z;
  cb_width : Z;
  cb_height : Z;
  cb_stride : Z;
  cb_pts : Q
}.

(** Copy an entry into the display slot and mark it ready (the buffer is
    allocated on first use, then overwritten in place). *)
Definition show_entry (d : DisplaySlot) (e : VideoFrameEntry) : DisplaySlot :=
  {| display_buffer := Some (data e);
     display_width := width e;
     display_height := height e;
     display_stride := stride e;
     display_pts := pts e;
     display_ready := true |}.

Definition callback_event (d : DisplaySlot) : CallbackEvent :=
  {| cb_buffer := display_buffer d; cb_width := display_width d;
     cb_height := display_height d; cb_stride := display_stride d;
     cb_pts := display_pts d |}.

(** After a frame became ready: update the pts, then call the callback. *)
Definition surface (p : PrismPlayer) : PrismPlayer * list CallbackEvent :=
  let d := disp p in
  let p1 := set_clk p (with_video_pts (clk p) (display_pts d)) in
  (p1, if has_video_callback (sess p1) then [callback_event d] else []).

(** Live mode: one pass of [while (video_queue_count > 0)], remembering
    the index of the newest valid entry and invalidating the previous one. *)
Definition live_drain_step (st : VideoQueue * option Z) : VideoQueue * option Z :=
  let (q, newest) := st in
  let idx := video_queue_read q in
  let a := video_queue q in
  let '(a', newest') :=
    if valid (a idx) then
      (match newest with
       | Some j => upd a j (invalidate (a j))
       | None => a
       end, Some idx)
    else (a, newest) in
  ({| video_queue := a';
      video_queue_write := video_queue_write q;
      video_queue_read := Z.rem (idx + 1) VIDEO_QUEUE_SIZE;
      video_queue_count := video_queue_count q - 1 |}, newest').

(** The loop runs exactly [video_queue_count] times. *)
Definition live_drain (q : VideoQueue) : VideoQueue * option Z :=
  Nat.iter (Z.to_nat (video_queue_count q)) live_drain_step (q, None).

Definition update_live (p : PrismPlayer) : Z * PrismPlayer * list CallbackEvent :=
  let '(q, newest) := live_drain (vq p) in
  match newest with
  | None => (0, set_vq p q, [])
  | Some j =>
      let e := video_queue q j in
      let q' := {| video_queue := upd (video_queue q) j (invalidate e);
                   video_queue_write := video_queue_write q;
                   video_queue_read := video_queue_read q;
                   video_queue_count := video_queue_count q |} in
      let p1 := set_disp (set_vq p q') (show_entry (disp p) e) in
      let '(p2, cbs) := surface p1 in
      (1, p2, cbs)
  end.

(** Finite mode: skip invalid entries; surface the first valid one if it
    is due ([time_diff <= 0.016]) and stop, otherwise stop. *)
Fixpoint update_vod (fuel : nat) (p : PrismPlayer) (playback_time : Q)
  : Z * PrismPlayer * list CallbackEvent :=
  match fuel with
  | O => (0, p, [])
  | S fuel' =>
      let q := vq p in
      if video_queue_count q <=? 0 then (0, p, [])
      else
        let idx := video_queue_read q in
        let e := video_queue q idx in
        let advanced a :=
          {| video_queue := a;
             video_queue_write := video_queue_write q;
             video_queue_read := Z.rem (idx + 1) VIDEO_QUEUE_SIZE;
             video_queue_count := video_queue_count q - 1 |} in
        if negb (valid e) then
          update_vod fuel' (set_vq p (advanced (video_queue q))) playback_time
        else
          let time_diff := (pts e - playback_time)%Q in
          if Qle_bool time_diff (16 # 1000) then
            let p1 := set_vq (set_disp p (show_entry (disp p) e))
                             (advanced (upd (video_queue q) idx (invalidate e))) in
            let '(p2, cbs) := surface p1 in
            (1, p2, cbs)
          else (0, p, [])
  end.

Definition playback_position (p : PrismPlayer) (now : Z) : Q :=
  (start_pts (clk p) +
   (inject_Z (now - playback_start_time (clk p)) / inject_Z 1000000) * speed (sess p))%Q.

(** Returns [frames_ready], the new player, and the callback invocations. *)
Definition prism_player_update (p : PrismPlayer) (now : Z)
  : Z * PrismPlayer * list CallbackEvent :=
  let current_state := state (ctl p) in
  if negb (PrismState_beq current_state PRISM_STATE_PLAYING) &&
     negb (PrismState_beq current_state PRISM_STATE_END_OF_FILE)
  then (0, p, [])
  else
    let playback_time := playback_position p now in
    if is_live (sess p) then update_live p
    else update_vod (Z.to_nat (video_queue_count (vq p))) p playback_time.

(** ** Pull accessors *)

(** [prism_player_get_video_frame]: the buffer with width, height and
    stride, or NULL. *)
Definition prism_player_get_video_frame (p : PrismPlayer)
  : option (Z * Z * Z * Z) * PrismPlayer :=
  let d := disp p in
  match display_ready d, display_buffer d with
  | true, Some b =>
      (Some (b, display_width d, display_height d, display_stride d),
       set_disp p {| display_buffer := display_buffer d;
                     display_width := display_width d;
                     display_height := display_height d;
                     display_stride := display_stride d;
                     display_pts := display_pts d;
                     display_ready := false |})
  | _, _ => (None, p)
  end.

(** The copy loop of [prism_player_get_audio_samples]. *)
Fixpoint ring_read_loop (n : nat) (b : Z -> Z) (size pos : Z) : list Z * Z :=
  match n with
  | O => ([], pos)
  | S n' =>
      let '(xs, pos') := ring_read_loop n' b size (Z.rem (pos + 1) size) in
      (b pos :: xs, pos')
  end.

(** [prism_player_get_audio_samples]; [buffer_nonnull] says whether the
    caller's buffer pointer is non-NULL.  Returns the count, the samples
    copied, and the new player. *)
Definition prism_player_get_audio_samples (p : PrismPlayer) (buffer_nonnull : bool)
  (max_samples : Z) : Z * list Z * PrismPlayer :=
  let r := ring p in
  match audio_buffer r with
  | Some b =>
      if negb buffer_nonnull then (0, [], p)
      else
        let to_copy := if audio_available r <? max_samples
                       then audio_available r else max_samples in
        let '(out, pos) := ring_read_loop (Z.to_nat to_copy) b
                             (audio_buffer_size r) (audio_read_pos r) in
        (to_copy, out,
         set_ring p {| audio_buffer := audio_buffer r;
                       audio_buffer_size := audio_buffer_size r;
                       audio_write_pos := audio_write_pos r;
                       audio_read_pos := pos;
                       audio_available := audio_available r - to_copy |})
  | None => (0, [], p)
  end.

(** ** Lifecycle *)

(** The queue/ring/display reset shared by stop, seek and close. *)
Definition clear_queues (p : PrismPlayer) : PrismPlayer :=
  let q := vq p in
  let d := disp p in
  let r := ring p in
  let p1 := set_vq p {| video_queue := fun i => invalidate (video_queue q i);
                        video_queue_write := 0; video_queue_read := 0;
                        video_queue_count := 0 |} in
  let p2 := set_disp p1 {| display_buffer := display_buffer d;
                           display_width := display_width d;
                           display_height := display_height d;
                           display_stride := display_stride d;
                           display_pts := display_pts d;
                           display_ready := false |} in
  set_ring p2 {| audio_buffer := audio_buffer r;
                 audio_buffer_size := audio_buffer_size r;
                 audio_write_pos := 0; audio_read_pos := 0;
                 audio_available := 0 |}.

Definition play_allowed (s : PrismState) : bool :=
  PrismState_beq s PRISM_STATE_READY || PrismState_beq s PRISM_STATE_PAUSED ||
  PrismState_beq s PRISM_STATE_STOPPED.

(** [prism_player_play] *)
Definition prism_player_play (p : PrismPlayer) (now : Z) : PrismError * PrismPlayer :=
  if negb (play_allowed (state (ctl p))) then (PRISM_ERROR_NOT_READY, p)
  else
    let p1 := set_ctl (set_clk p (with_anchor (clk p) now (current_pts (clk p))))
                      (with_state (ctl p) PRISM_STATE_PLAYING) in
    (PRISM_OK, if negb (decoder_running (ctl p1)) then start_decoder_thread p1 else p1).

(** [prism_player_pause] *)
Definition prism_player_pause (p : PrismPlayer) : PrismError * PrismPlayer :=
  if PrismState_beq (state (ctl p)) PRISM_STATE_PLAYING
  then (PRISM_OK, set_ctl p (with_state (ctl p) PRISM_STATE_PAUSED))
  else (PRISM_OK, p).

(** [prism_player_stop] *)
Definition prism_player_stop (p : PrismPlayer) : PrismError * PrismPlayer :=
  let p1 := stop_decoder_thread p in
  let p2 := set_clk p1 (with_current (clk p1) 0%Q) in
  let p3 := set_ctl p2 (with_state (with_first_frame (ctl p2) false) PRISM_STATE_STOPPED) in
  (PRISM_OK, clear_queues p3).

(** [prism_player_seek]; [seek_ok] is whether [av_seek_frame] succeeded. *)
Definition prism_player_seek (p : PrismPlayer) (position_seconds : Q) (seek_ok : bool)
  : PrismError * PrismPlayer :=
  if negb (has_format_ctx (sess p)) then (PRISM_ERROR_INVALID_PLAYER, p)
  else if is_live (sess p) then (PRISM_ERROR_SEEK_FAILED, p)
  else
    let was_running := decoder_running (ctl p) in
    let p1 := if was_running then stop_decoder_thread p else p in
    let restart q :=
      if was_running && PrismState_beq (state (ctl q)) PRISM_STATE_PLAYING
      then start_decoder_thread q else q in
    if negb seek_ok then (PRISM_ERROR_SEEK_FAILED, restart p1)
    else
      let p2 := set_clk p1 (with_current (clk p1) position_seconds) in
      let p3 := set_ctl p2 (with_first_frame (ctl p2) false) in
      (PRISM_OK, restart (clear_queues p3)).

(** [prism_player_close]: the FFmpeg contexts and the audio buffer are
    freed, the queues cleared, the stream indices reset. *)
Definition prism_player_close (p : PrismPlayer) : PrismPlayer :=
  let p1 := stop_decoder_thread p in
  let s := sess p1 in
  let r := ring p1 in
  let p2 := set_ring p1 {| audio_buffer := None;
                           audio_buffer_size := audio_buffer_size r;
                           audio_write_pos := audio_write_pos r;
                           audio_read_pos := audio_read_pos r;
                           audio_available := audio_available r |} in
  let p3 := clear_queues p2 in
  let c := ctl p3 in
  {| sess := {| video_stream_idx := -1; audio_stream_idx := -1;
                has_format_ctx := false; has_video_codec_ctx := false;
                has_audio_codec_ctx := false; has_swr_ctx := false;
                is_live := is_live s; loop := loop s; speed := speed s;
                video_width := video_width s; video_height := video_height s;
                video_stride := video_stride s;
                has_video_callback := has_video_callback s |};
     ctl := {| state := PRISM_STATE_IDLE; stop_requested := stop_requested c;
               decoder_running := decoder_running c; first_frame_decoded := false |};
     clk := clk p3; vq := vq p3; disp := disp p3; ring := ring p3 |}.

(** ** Views used in the statements *)

(** The queued entries, oldest first: slots [read], [read+1], ... (mod 8),
    [count] of them. *)
Definition queue_contents (q : VideoQueue) : list VideoFrameEntry :=
  map (fun i => video_queue q (Z.rem (video_queue_read q + Z.of_nat i) VIDEO_QUEUE_SIZE))
      (seq 0 (Z.to_nat (video_queue_count q))).

(** The stored samples, oldest first. *)
Definition ring_contents (r : AudioRing) : list Z :=
  match audio_buffer r with
  | Some b =>
      map (fun i => b (Z.rem (audio_read_pos r + Z.of_nat i) (audio_buffer_size r)))
          (seq 0 (Z.to_nat (audio_available r)))
  | None => []
  end.

(** ** Sample sessions

    A player as [prism_player_open_with_options] leaves it for a source
    with a video stream (index 0) and, when [audio_idx >= 0], an audio
    stream with a 2-second ring of 48 kHz stereo ([48000 * 2 * 2] floats),
    after [prism_player_play] (decoder thread running). *)
Definition empty_entry : VideoFrameEntry :=
  {| data := 0; width := 0; height := 0; stride := 0; pts := 0%Q; valid := false |}.

Definition playing_player (live : bool) (audio_idx : Z) : PrismPlayer :=
  let has_audio := 0 <=? audio_idx in
  {| sess := {| video_stream_idx := 0; audio_stream_idx := audio_idx;
                has_format_ctx := true; has_video_codec_ctx := true;
                has_audio_codec_ctx := has_audio; has_swr_ctx := has_audio;
                is_live := live; loop := false; speed := 1%Q;
                video_width := 4; video_height := 2; video_stride := 16;
                has_video_callback := true |};
     ctl := {| state := PRISM_STATE_PLAYING; stop_requested := false;
               decoder_running := true; first_frame_decoded := false |};
     clk := {| playback_start_time := 0; start_pts := 0%Q; current_pts := 0%Q;
               video_pts := 0%Q; audio_pts := 0%Q |};
     vq := {| video_queue := fun _ => empty_entry; video_queue_write := 0;
              video_queue_read := 0; video_queue_count := 0 |};
     disp := {| display_buffer := None; display_width := 0; display_height := 0;
                display_stride := 0; display_pts := 0%Q; display_ready := false |};
     ring := {| audio_buffer := if has_audio then Some (fun _ => 0) else None;
                audio_buffer_size := if has_audio then 48000 * 2 * 2 else 0;
                audio_write_pos := 0; audio_read_pos := 0; audio_available := 0 |} |}.

(** [n] video packets on stream 0, frame [k] carrying picture [k] at
    pts [k/30]. *)
Definition video_packets (n : nat) : list ReadResult :=
  map (fun k => ReadPacket 0 (VideoDecoded (Z.of_nat k) (Z.of_nat k # 30))) (seq 1 n).

(** A ring of the opened size holding 191990 samples. *)
Definition nearly_full_ring : AudioRing :=
  {| audio_buffer := Some (fun i => i); audio_buffer_size := 192000;
     audio_write_pos := 191990; audio_read_pos := 0; audio_available := 191990 |}.

(** ** Creation and opening *)

Definition set_sess (p : PrismPlayer) (s : Session) : PrismPlayer :=
  {| sess := s; ctl := ctl p; clk := clk p; vq := vq p; disp := disp p; ring := ring p |}.

(** [prism_player_create]: [calloc] zeroes everything; the state is IDLE,
    the stream indices -1 and the speed 1. *)
Definition prism_player_create : PrismPlayer :=
  {| sess := {| video_stream_idx := -1; audio_stream_idx := -1;
                has_format_ctx := false; has_video_codec_ctx := false;
                has_audio_codec_ctx := false; has_swr_ctx := false;
                is_live := false; loop := false; speed := 1%Q;
                video_width := 0; video_height := 0; video_stride := 0;
                has_video_callback := false |};
     ctl := {| state := PRISM_STATE_IDLE; stop_requested := false;
               decoder_running := false; first_frame_decoded := false |};
     clk := {| playback_start_time := 0; start_pts := 0%Q; current_pts := 0%Q;
               video_pts := 0%Q; audio_pts := 0%Q |};
     vq := {| video_queue := fun _ => {| data := 0; width := 0; height := 0; stride := 0;
                                         pts := 0%Q; valid := false |};
              video_queue_write := 0; video_queue_read := 0; video_queue_count := 0 |};
     disp := {| display_buffer := None; display_width := 0; display_height := 0;
                display_stride := 0; display_pts := 0%Q; display_ready := false |};
     ring := {| audio_buffer := None; audio_buffer_size := 0;
                audio_write_pos := 0; audio_read_pos := 0; audio_available := 0 |} |}.

(** The [codec_type] of a stream of the opened container. *)
Inductive MediaType := AVMEDIA_TYPE_VIDEO | AVMEDIA_TYPE_AUDIO | AVMEDIA_TYPE_OTHER.

Scheme Equality for MediaType.

(** What FFmpeg reports while [prism_player_open_with_options] runs:
    whether [avformat_open_input] and [avformat_find_stream_info] succeed,
    whether the duration is known ([duration != AV_NOPTS_VALUE]), the
    stream types, whether the decoders are found ([avcodec_find_decoder])
    and open ([avcodec_open2 >= 0]), and the decoded picture size. *)
Record MediaProbe := {
  probe_open_ok : bool;
  probe_stream_info_ok : bool;
  probe_duration_known : bool;
  probe_streams : list MediaType;
  probe_video_codec_found : bool;
  probe_video_codec_open_ok : bool;
  probe_video_width : Z;
  probe_video_height : Z;
  probe_audio_codec_found : bool;
  probe_audio_codec_open_ok : bool
}.

(** The stream search loop: the index of the first stream of type [t],
    counting from [i]; [None] when there is none (the field then keeps its
    value). *)
Fixpoint find_stream (t : MediaType) (streams : list MediaType) (i : Z) : option Z :=
  match streams with
  | [] => None
  | x :: rest => if MediaType_beq x t then Some i else find_stream t rest (i + 1)
  end.

Definition with_stream_info (s : Session) (has_fmt live : bool) (vidx aidx : Z) : Session :=
  {| video_stream_idx := vidx; audio_stream_idx := aidx;
     has_format_ctx := has_fmt; has_video_codec_ctx := has_video_codec_ctx s;
     has_audio_codec_ctx := has_audio_codec_ctx s; has_swr_ctx := has_swr_ctx s;
     is_live := live; loop := loop s; speed := speed s;
     video_width := video_width s; video_height := video_height s;
     video_stride := video_stride s; has_video_callback := has_video_callback s |}.

Definition with_format_ctx (s : Session) (b : bool) : Session :=
  with_stream_info s b (is_live s) (video_stream_idx s) (audio_stream_idx s).

(** The video decoder context is allocated; when it opens, the picture
    size is recorded and the RGBA stride is [width * 4]. *)
Definition with_video_codec (s : Session) (opened : bool) (w h : Z) : Session :=
  {| video_stream_idx := video_stream_idx s; audio_stream_idx := audio_stream_idx s;
     has_format_ctx := has_format_ctx s; has_video_codec_ctx := true;
     has_audio_codec_ctx := has_audio_codec_ctx s; has_swr_ctx := has_swr_ctx s;
     is_live := is_live s; loop := loop s; speed := speed s;
     video_width := if opened then w else video_width s;
     video_height := if opened then h else video_height s;
     video_stride := if opened then w * 4 else video_stride s;
     has_video_callback := has_video_callback s |}.

Definition with_audio_codec (s : Session) (swr : bool) : Session :=
  {| video_stream_idx := video_stream_idx s; audio_stream_idx := audio_stream_idx s;
     has_format_ctx := has_format_ctx s; has_video_codec_ctx := has_video_codec_ctx s;
     has_audio_codec_ctx := true; has_swr_ctx := swr;
     is_live := is_live s; loop := loop s; speed := speed s;
     video_width := video_width s; video_height := video_height s;
     video_stride := video_stride s; has_video_callback := has_video_callback s |}.

(** [set_error]: the state becomes ERROR (the error code is returned). *)
Definition open_fail (e : PrismError) (p : PrismPlayer) : PrismError * PrismPlayer :=
  (e, set_ctl p (with_state (ctl p) PRISM_STATE_ERROR)).

(** The ring allocated for an opened audio stream: 2 seconds of 48 kHz
    stereo floats.  [av_malloc] leaves its contents undetermined; they are
    never read before written and are taken as 0 here. *)
Definition opened_audio_ring : AudioRing :=
  {| audio_buffer := Some (fun _ => 0); audio_buffer_size := 48000 * 2 * 2;
     audio_write_pos := 0; audio_read_pos := 0; audio_available := 0 |}.

(** [prism_player_open_with_options]; [url_nonnull] says whether [url]
    is non-NULL. *)
Definition prism_player_open (p : PrismPlayer) (url_nonnull : bool) (m : MediaProbe)
  : PrismError * PrismPlayer :=
  if negb url_nonnull then (PRISM_ERROR_INVALID_PARAMETER, p)
  else
    let p0 := prism_player_close p in
    let p1 := set_ctl p0 (with_state (ctl p0) PRISM_STATE_OPENING) in
    if negb (probe_open_ok m) then open_fail PRISM_ERROR_OPEN_FAILED p1
    else if negb (probe_stream_info_ok m) then open_fail PRISM_ERROR_OPEN_FAILED p1
    else
      let s1 := sess p1 in
      let vidx := match find_stream AVMEDIA_TYPE_VIDEO (probe_streams m) 0 with
                  | Some i => i | None => video_stream_idx s1 end in
      let aidx := match find_stream AVMEDIA_TYPE_AUDIO (probe_streams m) 0 with
                  | Some i => i | None => audio_stream_idx s1 end in
      let s2 := with_stream_info s1 true (negb (probe_duration_known m)) vidx aidx in
      if (vidx <? 0) && (aidx <? 0) then
        open_fail PRISM_ERROR_NO_VIDEO_STREAM (set_sess p1 (with_format_ctx s2 false))
      else if (0 <=? vidx) && negb (probe_video_codec_found m) then
        open_fail PRISM_ERROR_CODEC_NOT_FOUND (set_sess p1 (with_format_ctx s2 false))
      else if (0 <=? vidx) && negb (probe_video_codec_open_ok m) then
        open_fail PRISM_ERROR_CODEC_OPEN_FAILED
                  (set_sess p1 (with_format_ctx (with_video_codec s2 false 0 0) false))
      else
        let s3 := if 0 <=? vidx
                  then with_video_codec s2 true (probe_video_width m) (probe_video_height m)
                  else s2 in
        let audio_opened := (0 <=? aidx) && probe_audio_codec_found m &&
                            probe_audio_codec_open_ok m in
        let s4 := if (0 <=? aidx) && probe_audio_codec_found m
                  then with_audio_codec s3 audio_opened else s3 in
        let p4 := set_sess p1 s4 in
        let p5 := if audio_opened then set_ring p4 opened_audio_ring else p4 in
        (PRISM_OK, set_ctl p5 (with_state (with_first_frame (ctl p5) false) PRISM_STATE_READY)).

(** ** Settings *)

Definition prism_player_set_loop (p : PrismPlayer) (b : bool) : PrismPlayer :=
  let s := sess p in
  set_sess p {| video_stream_idx := video_stream_idx s; audio_stream_idx := audio_stream_idx s;
                has_format_ctx := has_format_ctx s; has_video_codec_ctx := has_video_codec_ctx s;
                has_audio_codec_ctx := has_audio_codec_ctx s; has_swr_ctx := has_swr_ctx s;
                is_live := is_live s; loop := b; speed := speed s;
                video_width := video_width s; video_height := video_height s;
                video_stride := video_stride s; has_video_callback := has_video_callback s |}.

Definition prism_player_set_speed (p : PrismPlayer) (v : Q) : PrismPlayer :=
  let s := sess p in
  set_sess p {| video_stream_idx := video_stream_idx s; audio_stream_idx := audio_stream_idx s;
                has_format_ctx := has_format_ctx s; has_video_codec_ctx := has_video_codec_ctx s;
                has_audio_codec_ctx := has_audio_codec_ctx s; has_swr_ctx := has_swr_ctx s;
                is_live := is_live s; loop := loop s; speed := v;
                video_width := video_width s; video_height := video_height s;
                video_stride := video_stride s; has_video_callback := has_video_callback s |}.

(** [prism_player_set_video_callback]; [b] says whether the callback is
    non-NULL. *)
Definition prism_player_set_video_callback (p : PrismPlayer) (b : bool) : PrismPlayer :=
  let s := sess p in
  set_sess p {| video_stream_idx := video_stream_idx s; audio_stream_idx := audio_stream_idx s;
                has_format_ctx := has_format_ctx s; has_video_codec_ctx := has_video_codec_ctx s;
                has_audio_codec_ctx := has_audio_codec_ctx s; has_swr_ctx := has_swr_ctx s;
                is_live := is_live s; loop := loop s; speed := speed s;
                video_width := video_width s; video_height := video_height s;
                video_stride := video_stride s; has_video_callback := b |}.

(** [prism_player_get_audio_sample_rate] and [prism_player_get_audio_channels]. *)
Definition prism_player_get_audio_sample_rate (p : PrismPlayer) : Z :=
  if has_audio_codec_ctx (sess p) then 48000 else 0.

Definition prism_player_get_audio_channels (p : PrismPlayer) : Z :=
  if has_audio_codec_ctx (sess p) then 2 else 0.

(** ** Sequences of calls

    Each public call, and one iteration of the decoder loop, as an atomic
    step: the queue and ring fields are only touched under [queue_lock],
    one critical section per step. *)
Inductive PlayerOp :=
| OpOpen (url_nonnull : bool) (m : MediaProbe)
| OpDecode (now : Z) (rd : ReadResult)
| OpUpdate (now : Z)
| OpGetVideoFrame
| OpGetAudioSamples (buffer_nonnull : bool) (max_samples : Z)
| OpPlay (now : Z)
| OpPause
| OpStop
| OpSeek (position_seconds : Q) (seek_ok : bool)
| OpClose
| OpSetLoop (b : bool)
| OpSetSpeed (v : Q)
| OpSetVideoCallback (b : bool).

Definition apply_op (p : PrismPlayer) (op : PlayerOp) : PrismPlayer :=
  match op with
  | OpOpen u m => snd (prism_player_open p u m)
  | OpDecode now rd => worker_state (decoder_iteration p now rd)
  | OpUpdate now => snd (fst (prism_player_update p now))
  | OpGetVideoFrame => snd (prism_player_get_video_frame p)
  | OpGetAudioSamples b n => snd (prism_player_get_audio_samples p b n)
  | OpPlay now => snd (prism_player_play p now)
  | OpPause => snd (prism_player_pause p)
  | OpStop => snd (prism_player_stop p)
  | OpSeek pos ok => snd (prism_player_seek p pos ok)
  | OpClose => prism_player_close p
  | OpSetLoop b => prism_player_set_loop p b
  | OpSetSpeed v => prism_player_set_speed p v
  | OpSetVideoCallback b => prism_player_set_video_callback p b
  end.

Definition run_ops (p : PrismPlayer) (ops : list PlayerOp) : PrismPlayer :=
  fold_left apply_op ops p.

(** Calls that ask for a non-negative number of samples. *)
Definition op_ok (op : PlayerOp) : bool :=
  match op with
  | OpGetAudioSamples _ n => 0 <=? n
  | _ => true
  end.

(** ** Well-formed queue and ring *)

(** The video queue: count in [0, 8], read cursor in range, write cursor
    [count] slots after it, and every queued slot valid. *)
Definition vq_wf (q : VideoQueue) : Prop :=
  0 <= video_queue_count q <= VIDEO_QUEUE_SIZE /\
  0 <= video_queue_read q < VIDEO_QUEUE_SIZE /\
  video_queue_write q = Z.rem (video_queue_read q + video_queue_count q) VIDEO_QUEUE_SIZE /\
  (forall i, 0 <= i < video_queue_count q ->
     valid (video_queue q (Z.rem (video_queue_read q + i) VIDEO_QUEUE_SIZE)) = true).

(** The audio ring: [0 <= available <= size], cursors non-negative and,
    for a non-empty ring, in range with the write cursor [available]
    samples after the read cursor. *)
Definition ring_wf (r : AudioRing) : Prop :=
  0 <= audio_available r <= audio_buffer_size r /\
  0 <= audio_read_pos r /\ 0 <= audio_write_pos r /\
  (0 < audio_buffer_size r ->
     audio_read_pos r < audio_buffer_size r /\
     audio_write_pos r = Z.rem (audio_read_pos r + audio_available r) (audio_buffer_size r)).

(** Both, and a resampler only with an allocated, non-empty ring. *)
Definition player_wf (p : PrismPlayer) : Prop :=
  vq_wf (vq p) /\ ring_wf (ring p) /\
  (has_swr_ctx (sess p) = true -> audio_buffer (ring p) <> None /\ 0 < audio_buffer_size (ring p)).

(** Whether the container has a stream of type [t]. *)
Definition stream_present (t : MediaType) (streams : list MediaType) : bool :=
  match find_stream t streams 0 with Some _ => true | None => false end.

(** A file with a 4x2 video stream (index 0) and an audio stream
    (index 1), both decodable. *)
Definition av_probe : MediaProbe :=
  {| probe_open_ok := true; probe_stream_info_ok := true; probe_duration_known := true;
     probe_streams := [AVMEDIA_TYPE_VIDEO; AVMEDIA_TYPE_AUDIO];
     probe_video_codec_found := true; probe_video_codec_open_ok := true;
     probe_video_width := 4; probe_video_height := 2;
     probe_audio_codec_found := true; probe_audio_codec_open_ok := true |}.

(** A boolean check of [vq_wf], for concrete queues. *)
Definition vq_wfb (q : VideoQueue) : bool :=
  (0 <=? video_queue_count q) && (video_queue_count q <=? VIDEO_QUEUE_SIZE) &&
  (0 <=? video_queue_read q) && (video_queue_read q <? VIDEO_QUEUE_SIZE) &&
  (video_queue_write q =? Z.rem (video_queue_read q + video_queue_count q) VIDEO_QUEUE_SIZE) &&
  forallb valid (queue_contents q).

(** * Properties *)

(** ** Pull accessor and lifecycle contracts *)

(** C7: [prism_player_get_video_frame] returns the display slot's buffer,
    width, height and stride exactly when the slot is ready (the buffer of a
    ready slot is never NULL), clears the ready flag when it does, and a
    second call right after the first returns nothing. *)
Theorem get_video_frame_at_most_once :
  forall p : PrismPlayer,
    (display_ready (disp p) = true -> display_buffer (disp p) <> None) ->
    let '(r1, p1) := prism_player_get_video_frame p in
    (r1 <> None <-> display_ready (disp p) = true) /\
    (forall b w h st, r1 = Some (b, w, h, st) ->
       display_buffer (disp p) = Some b /\ w = display_width (disp p) /\
       h = display_height (disp p) /\ st = display_stride (disp p) /\
       display_ready (disp p1) = false) /\
    fst (prism_player_get_video_frame p1) = None.
Proof.
  intros [s c k q [b w h st dp rd] r] Hbuf; cbn in *.
  destruct rd, b as [b|]; cbn.
  - repeat split; try discriminate; try congruence.
    all: intros ? ? ? ? E; injection E; intros; subst; auto.
  - exfalso; now apply Hbuf.
  - repeat split; try discriminate; try congruence.
  - repeat split; try discriminate; try congruence.
Qed.

(** C8: [prism_player_play] fails with [NotReady] and changes nothing
    unless the state is Ready, Paused or Stopped; otherwise it succeeds,
    anchors the clock at the current position and moves to Playing. *)
Theorem play_requires_ready_paused_or_stopped :
  forall (p : PrismPlayer) (now : Z),
    (play_allowed (state (ctl p)) = true <->
       state (ctl p) = PRISM_STATE_READY \/ state (ctl p) = PRISM_STATE_PAUSED \/
       state (ctl p) = PRISM_STATE_STOPPED) /\
    let '(rc, p') := prism_player_play p now in
    if play_allowed (state (ctl p)) then
      rc = PRISM_OK /\ state (ctl p') = PRISM_STATE_PLAYING /\
      playback_start_time (clk p') = now /\ start_pts (clk p') = current_pts (clk p) /\
      decoder_running (ctl p') = true
    else rc = PRISM_ERROR_NOT_READY /\ p' = p.
Proof.
  intros [s [st sr dr ff] k q d r] now; cbn.
  split.
  - destruct st; cbn; intuition discriminate.
  - destruct st; cbn; auto; destruct dr; cbn; repeat split.
Qed.

(** C9: on an open session of a live source, [prism_player_seek] returns
    [SeekFailed] and leaves the player exactly as it was. *)
Theorem seek_live_fails_without_change :
  forall (p : PrismPlayer) (position_seconds : Q) (seek_ok : bool),
    has_format_ctx (sess p) = true ->
    is_live (sess p) = true ->
    prism_player_seek p position_seconds seek_ok = (PRISM_ERROR_SEEK_FAILED, p).
Proof.
  intros p pos ok Hf Hl; unfold prism_player_seek; now rewrite Hf, Hl.
Qed.

Lemma seek_live_fails_without_change_witness :
  prism_player_seek (playing_player true 1) (5 # 1) true
  = (PRISM_ERROR_SEEK_FAILED, playing_player true 1).
Proof. apply seek_live_fails_without_change; reflexivity. Defined.

(** A player that has shown a frame: three frames decoded, one tick. *)
Lemma get_video_frame_at_most_once_witness :
  let p := snd (fst (prism_player_update (run_worker (playing_player false 1) 0 (video_packets 3)) 0)) in
  let '(r1, p1) := prism_player_get_video_frame p in
  (r1 <> None <-> display_ready (disp p) = true) /\
  (forall b w h st, r1 = Some (b, w, h, st) ->
     display_buffer (disp p) = Some b /\ w = display_width (disp p) /\
     h = display_height (disp p) /\ st = display_stride (disp p) /\
     display_ready (disp p1) = false) /\
  fst (prism_player_get_video_frame p1) = None.
Proof.
  apply get_video_frame_at_most_once. vm_compute. intros _ H; discriminate H.
Defined.

(** C10: outside Playing and EndOfFile, [prism_player_update] returns 0,
    invokes no callback and leaves the player unchanged. *)
Theorem update_outside_playing_is_noop :
  forall (p : PrismPlayer) (now : Z),
    state (ctl p) <> PRISM_STATE_PLAYING ->
    state (ctl p) <> PRISM_STATE_END_OF_FILE ->
    prism_player_update p now = (0, p, []).
Proof.
  intros p now H1 H2; unfold prism_player_update.
  destruct (state (ctl p)); cbn; congruence.
Qed.

Lemma update_outside_playing_is_noop_witness :
  let p := snd (prism_player_pause (run_worker (playing_player false 1) 0 (video_packets 3))) in
  prism_player_update p 0 = (0, p, []).
Proof.
  apply update_outside_playing_is_noop; vm_compute; discriminate.
Defined.

(** ** Audio ring bound *)

(** C1 fails at a negative [max_samples]: [to_copy] is then negative, the
    copy loop does not run and [audio_available -= to_copy] raises the
    count, here past the ring's capacity (0 stored, 192001 "available"). *)
Theorem get_audio_samples_negative_max_exceeds_capacity :
  let '(n, out, p') := prism_player_get_audio_samples (playing_player false 1) true (-192001) in
  n = -192001 /\ out = [] /\
  audio_buffer_size (ring p') = 192000 /\ audio_available (ring p') = 192001 /\
  audio_buffer_size (ring p') < audio_available (ring p').
Proof. vm_compute. repeat split; reflexivity. Qed.

(** ** Finite-media backpressure *)

(** C2 fails: with an audio stream whose ring stays below 3/4, the gate
    never holds the worker, so ten frames decoded back to back leave frames
    1..8 queued while frames 9 and 10 were decoded (the last video pts is
    frame 10's) and not stored. *)
Theorem finite_frames_9_and_10_decoded_and_dropped :
  let p := run_worker (playing_player false 1) 0 (video_packets 10) in
  map data (queue_contents (vq p)) = [1; 2; 3; 4; 5; 6; 7; 8] /\
  video_pts (clk p) = (10 # 30)%Q /\
  audio_available (ring p) = 0.
Proof. vm_compute. repeat split; reflexivity. Qed.

Lemma push_video_count_bound :
  forall live q e,
    0 <= video_queue_count q <= VIDEO_QUEUE_SIZE ->
    0 <= video_queue_count (push_video live q e) <= VIDEO_QUEUE_SIZE.
Proof.
  intros live q e H; unfold push_video, VIDEO_QUEUE_SIZE in *.
  destruct (live && (8 <=? video_queue_count q)) eqn:E; cbn.
  - apply andb_prop in E as [_ E]; apply Z.leb_le in E.
    destruct (video_queue_count q - 1 <? 8) eqn:F; cbn; lia.
  - destruct (video_queue_count q <? 8) eqn:F; cbn.
    + apply Z.ltb_lt in F; lia.
    + lia.
Qed.

Lemma decode_video_vq :
  forall p now pix fpts,
    vq (decode_video p now pix fpts) =
    push_video (is_live (sess p)) (vq p)
      {| data := pix; width := video_width (sess p); height := video_height (sess p);
         stride := video_stride (sess p); pts := fpts; valid := true |}.
Proof.
  intros p now pix fpts; unfold decode_video.
  destruct (first_frame_decoded (ctl p)); reflexivity.
Qed.

Lemma decode_audio_vq :
  forall p apts samples, vq (decode_audio p apts samples) = vq p.
Proof.
  intros p apts samples; unfold decode_audio.
  destruct apts; destruct (0 <? _); reflexivity.
Qed.

(** One worker iteration either leaves the video queue alone or pushes one
    entry into it. *)
Lemma decoder_iteration_vq :
  forall p now rd,
    vq (worker_state (decoder_iteration p now rd)) = vq p \/
    exists e, vq (worker_state (decoder_iteration p now rd)) =
              push_video (is_live (sess p)) (vq p) e.
Proof.
  intros p now rd; unfold decoder_iteration.
  destruct (stop_requested (ctl p)); [left; reflexivity|].
  destruct (negb _); [left; reflexivity|].
  destruct (backpressure p); [left; reflexivity|].
  destruct rd as [| |si pl].
  - destruct (loop (sess p) && negb (is_live (sess p))); left; reflexivity.
  - left; reflexivity.
  - cbn [worker_state].
    destruct ((si =? video_stream_idx (sess p)) && has_video_codec_ctx (sess p)) eqn:V;
    destruct ((si =? audio_stream_idx (sess p)) && has_audio_codec_ctx (sess p)) eqn:A;
    destruct pl as [|pix fpts|apts samples];
    cbv beta iota zeta delta [worker_state];
    try (left; reflexivity);
    try (destruct (has_swr_ctx (sess p)); rewrite ?decode_audio_vq; left; reflexivity).
    all: right; rewrite decode_video_vq; eexists; reflexivity.
Qed.

(** C2, as the code has it: in finite mode the worker sleeps without
    reading a packet exactly when the queue holds at least 7 entries and the
    source has no audio stream or its ring holds more than 3/4 of its
    capacity; the queue count never leaves [0, 8]; and when the gate lets
    the worker through with 8 entries queued (audio stream present, ring at
    most 3/4 full), a decoded video frame is not stored: the queue is
    unchanged while the frame's pts becomes the video pts. *)
Theorem finite_backpressure_gate :
  forall (p : PrismPlayer) (now : Z) (rd : ReadResult),
    is_live (sess p) = false ->
    0 <= video_queue_count (vq p) <= VIDEO_QUEUE_SIZE ->
    ((stop_requested (ctl p) = false /\ state (ctl p) = PRISM_STATE_PLAYING /\
      VIDEO_QUEUE_SIZE - 1 <= video_queue_count (vq p) /\
      (audio_stream_idx (sess p) < 0 \/
       Z.quot (audio_buffer_size (ring p) * 3) 4 < audio_available (ring p))) ->
     decoder_iteration p now rd = Continue p) /\
    0 <= video_queue_count (vq (worker_state (decoder_iteration p now rd))) <= VIDEO_QUEUE_SIZE /\
    (forall pix fpts,
       stop_requested (ctl p) = false -> state (ctl p) = PRISM_STATE_PLAYING ->
       has_video_codec_ctx (sess p) = true ->
       video_queue_count (vq p) = VIDEO_QUEUE_SIZE ->
       0 <= audio_stream_idx (sess p) ->
       audio_available (ring p) <= Z.quot (audio_buffer_size (ring p) * 3) 4 ->
       rd = ReadPacket (video_stream_idx (sess p)) (VideoDecoded pix fpts) ->
       exists p', decoder_iteration p now rd = Continue p' /\
                  vq p' = vq p /\ video_pts (clk p') = fpts).
Proof.
  intros p now rd Hlive Hc; split; [|split].
  - intros (Hs & Hst & Hq & Ha); unfold decoder_iteration.
    rewrite Hs, Hst; cbn.
    assert (backpressure p = true) as ->; [|reflexivity].
    unfold backpressure; rewrite Hlive; cbn.
    apply andb_true_intro; split; [apply Z.leb_le; exact Hq|].
    apply orb_true_intro; destruct Ha as [Ha|Ha];
      [left; apply Z.ltb_lt | right; apply Z.ltb_lt]; exact Ha.
  - destruct (decoder_iteration_vq p now rd) as [->|[e ->]]; auto.
    apply push_video_count_bound; exact Hc.
  - intros pix fpts Hs Hst Hv Hfull Ha Hav ->.
    unfold decoder_iteration; rewrite Hs, Hst; cbn.
    assert (backpressure p = false) as ->.
    { unfold backpressure; rewrite Hlive, Hfull; cbn.
      apply orb_false_intro; [apply Z.ltb_ge | apply Z.ltb_ge]; lia. }
    rewrite Z.eqb_refl, Hv; cbv beta iota zeta delta [andb].
    destruct (_ =? _); cbv beta iota zeta delta [andb];
      [destruct (has_audio_codec_ctx (sess p))|]; cbv beta iota;
      exists (decode_video p now pix fpts); (split; [reflexivity|split]).
    all: try (rewrite decode_video_vq, Hlive; unfold push_video; cbn [andb]; rewrite Hfull; reflexivity).
    all: unfold decode_video; destruct (first_frame_decoded (ctl p)); reflexivity.
Qed.

Lemma finite_backpressure_gate_witness :
  let p := run_worker (playing_player false 1) 0 (video_packets 8) in
  let rd := ReadPacket 0 (VideoDecoded 9 (9 # 30)) in
  is_live (sess p) = false /\ 0 <= video_queue_count (vq p) <= VIDEO_QUEUE_SIZE /\
  (((stop_requested (ctl p) = false /\ state (ctl p) = PRISM_STATE_PLAYING /\
      VIDEO_QUEUE_SIZE - 1 <= video_queue_count (vq p) /\
      (audio_stream_idx (sess p) < 0 \/
       Z.quot (audio_buffer_size (ring p) * 3) 4 < audio_available (ring p))) ->
     decoder_iteration p 0 rd = Continue p) /\
    0 <= video_queue_count (vq (worker_state (decoder_iteration p 0 rd))) <= VIDEO_QUEUE_SIZE /\
    (forall pix fpts,
       stop_requested (ctl p) = false -> state (ctl p) = PRISM_STATE_PLAYING ->
       has_video_codec_ctx (sess p) = true ->
       video_queue_count (vq p) = VIDEO_QUEUE_SIZE ->
       0 <= audio_stream_idx (sess p) ->
       audio_available (ring p) <= Z.quot (audio_buffer_size (ring p) * 3) 4 ->
       rd = ReadPacket (video_stream_idx (sess p)) (VideoDecoded pix fpts) ->
       exists p', decoder_iteration p 0 rd = Continue p' /\
                  vq p' = vq p /\ video_pts (clk p') = fpts)).
Proof.
  cbv zeta.
  split; [reflexivity|]. split; [vm_compute; split; discriminate|].
  apply finite_backpressure_gate; [reflexivity|vm_compute; split; discriminate].
Defined.

(** ** Presentation pump, finite mode *)

Lemma pump_runs :
  forall p, (state (ctl p) = PRISM_STATE_PLAYING \/ state (ctl p) = PRISM_STATE_END_OF_FILE) ->
    negb (PrismState_beq (state (ctl p)) PRISM_STATE_PLAYING) &&
    negb (PrismState_beq (state (ctl p)) PRISM_STATE_END_OF_FILE) = false.
Proof. intros p [-> | ->]; reflexivity. Qed.

(** C3: in finite mode, with the oldest queued entry valid, one pump tick
    compares its pts with the clock position: when [time_diff <= 0.016] it
    dequeues exactly that entry (read cursor +1, count -1, slot marked
    invalid, other slots untouched), copies it into the display slot marked
    ready, sets the current and video pts to its pts and invokes the
    callback once if one is set, returning 1; otherwise it returns 0 and
    changes nothing. *)
Theorem vod_update_surfaces_at_most_one :
  forall (p : PrismPlayer) (now : Z),
    is_live (sess p) = false ->
    (state (ctl p) = PRISM_STATE_PLAYING \/ state (ctl p) = PRISM_STATE_END_OF_FILE) ->
    0 < video_queue_count (vq p) ->
    valid (video_queue (vq p) (video_queue_read (vq p))) = true ->
    let q := vq p in
    let e := video_queue q (video_queue_read q) in
    let '(n, p', cbs) := prism_player_update p now in
    if Qle_bool (pts e - playback_position p now) (16 # 1000) then
      n = 1 /\
      video_queue_read (vq p') = Z.rem (video_queue_read q + 1) VIDEO_QUEUE_SIZE /\
      video_queue_count (vq p') = video_queue_count q - 1 /\
      video_queue_write (vq p') = video_queue_write q /\
      video_queue (vq p') (video_queue_read q) = invalidate e /\
      (forall i, i <> video_queue_read q -> video_queue (vq p') i = video_queue q i) /\
      disp p' = show_entry (disp p) e /\ display_ready (disp p') = true /\
      current_pts (clk p') = pts e /\ video_pts (clk p') = pts e /\
      cbs = (if has_video_callback (sess p) then [callback_event (show_entry (disp p) e)] else [])
    else n = 0 /\ p' = p /\ cbs = [].
Proof.
  intros p now Hlive Hst Hc He; cbv zeta.
  unfold prism_player_update; rewrite (pump_runs p Hst), Hlive.
  destruct (Z.to_nat (video_queue_count (vq p))) as [|k] eqn:N; [lia|].
  cbn [update_vod].
  rewrite (proj2 (Z.leb_gt _ _) Hc), He; cbn [negb].
  destruct (Qle_bool _ _); cbn.
  - repeat split; try reflexivity.
    + unfold upd; rewrite Z.eqb_refl; reflexivity.
    + intros i Hi; unfold upd; rewrite (proj2 (Z.eqb_neq _ _) Hi); reflexivity.
  - repeat split.
Qed.

Lemma vod_update_surfaces_at_most_one_witness :
  let p := run_worker (playing_player false 1) 0 (video_packets 3) in
  let q := vq p in
  let e := video_queue q (video_queue_read q) in
  let '(n, p', cbs) := prism_player_update p 0 in
  if Qle_bool (pts e - playback_position p 0) (16 # 1000) then
    n = 1 /\
    video_queue_read (vq p') = Z.rem (video_queue_read q + 1) VIDEO_QUEUE_SIZE /\
    video_queue_count (vq p') = video_queue_count q - 1 /\
    video_queue_write (vq p') = video_queue_write q /\
    video_queue (vq p') (video_queue_read q) = invalidate e /\
    (forall i, i <> video_queue_read q -> video_queue (vq p') i = video_queue q i) /\
    disp p' = show_entry (disp p) e /\ display_ready (disp p') = true /\
    current_pts (clk p') = pts e /\ video_pts (clk p') = pts e /\
    cbs = (if has_video_callback (sess p) then [callback_event (show_entry (disp p) e)] else [])
  else n = 0 /\ p' = p /\ cbs = [].
Proof.
  apply vod_update_surfaces_at_most_one;
    [reflexivity | left; reflexivity | vm_compute; reflexivity | reflexivity].
Defined.

(** ** Modular index arithmetic of the rings *)

Lemma rem_succ_rem :
  forall m x, 0 < m -> 0 <= x -> Z.rem (Z.rem x m + 1) m = Z.rem (x + 1) m.
Proof.
  intros m x Hm Hx.
  assert (0 <= Z.rem x m) by (apply Z.rem_nonneg; lia).
  rewrite !Z.rem_mod_nonneg by lia.
  apply Z.add_mod_idemp_l; lia.
Qed.

Lemma rem_add_rem :
  forall m x y, 0 < m -> 0 <= x -> 0 <= y -> Z.rem (Z.rem x m + y) m = Z.rem (x + y) m.
Proof.
  intros m x y Hm Hx Hy.
  assert (0 <= Z.rem x m) by (apply Z.rem_nonneg; lia).
  rewrite !Z.rem_mod_nonneg by lia.
  apply Z.add_mod_idemp_l; lia.
Qed.

Lemma rem_small : forall m x, 0 <= x < m -> Z.rem x m = x.
Proof. intros m x H; apply Z.rem_small; lia. Qed.

(** Fewer than [m] steps apart, two positions of a ring of size [m] are
    different slots. *)
Lemma rem_distinct :
  forall m r i j, 0 <= r -> 0 <= i -> i < j -> j - i < m ->
    Z.rem (r + i) m <> Z.rem (r + j) m.
Proof.
  intros m r i j Hr Hi Hij Hm E.
  rewrite !Z.rem_mod_nonneg in E by lia.
  pose proof (Z.div_mod (r + i) m ltac:(lia)).
  pose proof (Z.div_mod (r + j) m ltac:(lia)).
  pose proof (Z.mod_pos_bound (r + i) m ltac:(lia)).
  pose proof (Z.mod_pos_bound (r + j) m ltac:(lia)).
  assert (m * ((r + j) / m - (r + i) / m) = j - i) by lia.
  assert (0 < (r + j) / m - (r + i) / m) by nia.
  nia.
Qed.

(** ** Presentation pump, live mode *)

(** After [k] passes of the live drain loop: the read cursor moved [k]
    slots, the count dropped by [k], only visited slots may have changed,
    and the remembered newest entry is one of the visited slots. *)
Lemma live_drain_iter :
  forall q k,
    0 <= video_queue_read q < VIDEO_QUEUE_SIZE ->
    let r := video_queue_read q in
    let st := Nat.iter k live_drain_step (q, None) in
    video_queue_read (fst st) = Z.rem (r + Z.of_nat k) VIDEO_QUEUE_SIZE /\
    video_queue_count (fst st) = video_queue_count q - Z.of_nat k /\
    video_queue_write (fst st) = video_queue_write q /\
    (forall idx, (forall i, (i < k)%nat -> idx <> Z.rem (r + Z.of_nat i) VIDEO_QUEUE_SIZE) ->
       video_queue (fst st) idx = video_queue q idx) /\
    match snd st with
    | None => True
    | Some j => exists i, (i < k)%nat /\ j = Z.rem (r + Z.of_nat i) VIDEO_QUEUE_SIZE
    end.
Proof.
  intros q k Hr; cbv zeta.
  induction k as [|k IH].
  - simpl Nat.iter; cbn [fst snd].
    split; [rewrite Z.add_0_r; symmetry; apply rem_small; exact Hr|].
    split; [lia|]. split; [reflexivity|]. split; [auto | exact I].
  - rewrite Nat.iter_succ.
    destruct (Nat.iter k live_drain_step (q, None)) as [q' nw].
    cbn [fst snd] in IH |- *.
    destruct IH as (Hread & Hcount & Hwrite & Hsame & Hnew).
    unfold live_drain_step.
    destruct (valid (video_queue q' (video_queue_read q'))) eqn:V; cbn.
    + repeat split.
      * rewrite Hread, rem_succ_rem by (unfold VIDEO_QUEUE_SIZE; lia).
        f_equal; lia.
      * lia.
      * exact Hwrite.
      * intros idx Hidx.
        assert (Hidx' : forall i, (i < k)%nat ->
                  idx <> Z.rem (video_queue_read q + Z.of_nat i) VIDEO_QUEUE_SIZE)
          by (intros i Hi; apply Hidx; lia).
        destruct nw as [j|].
        -- destruct Hnew as (i & Hi & ->).
           unfold upd. rewrite (proj2 (Z.eqb_neq _ _) (Hidx' i Hi)).
           apply Hsame; exact Hidx'.
        -- apply Hsame; exact Hidx'.
      * exists k; split; [lia | exact Hread].
    + repeat split.
      * rewrite Hread, rem_succ_rem by (unfold VIDEO_QUEUE_SIZE; lia).
        f_equal; lia.
      * lia.
      * exact Hwrite.
      * intros idx Hidx; apply Hsame; intros i Hi; apply Hidx; lia.
      * destruct nw as [j|]; [|exact I].
        destruct Hnew as (i & Hi & ->); exists i; split; [lia | reflexivity].
Qed.

(** C4: in live mode, with [N] entries queued ([1 <= N <= 8]) and the
    most recently pushed one (slot [read + N - 1]) valid, one pump tick
    empties the queue and surfaces exactly that entry: it is copied into the
    display slot marked ready, the current and video pts become its pts,
    and the callback, if set, is invoked once, with it; the tick returns 1.
    No other entry reaches the display slot or the callback. *)
Theorem live_update_surfaces_newest_only :
  forall (p : PrismPlayer) (now : Z),
    is_live (sess p) = true ->
    (state (ctl p) = PRISM_STATE_PLAYING \/ state (ctl p) = PRISM_STATE_END_OF_FILE) ->
    1 <= video_queue_count (vq p) <= VIDEO_QUEUE_SIZE ->
    0 <= video_queue_read (vq p) < VIDEO_QUEUE_SIZE ->
    valid (video_queue (vq p) (Z.rem (video_queue_read (vq p) + video_queue_count (vq p) - 1)
                                     VIDEO_QUEUE_SIZE)) = true ->
    let q := vq p in
    let e := video_queue q (Z.rem (video_queue_read q + video_queue_count q - 1) VIDEO_QUEUE_SIZE) in
    let '(n, p', cbs) := prism_player_update p now in
    n = 1 /\ video_queue_count (vq p') = 0 /\
    disp p' = show_entry (disp p) e /\ display_ready (disp p') = true /\
    current_pts (clk p') = pts e /\ video_pts (clk p') = pts e /\
    cbs = (if has_video_callback (sess p) then [callback_event (show_entry (disp p) e)] else []).
Proof.
  intros p now Hlive Hst Hc Hr Hv; cbv zeta.
  unfold prism_player_update; rewrite (pump_runs p Hst), Hlive.
  unfold update_live, live_drain.
  destruct (Z.to_nat (video_queue_count (vq p))) as [|k] eqn:N; [lia|].
  rewrite Nat.iter_succ.
  pose proof (live_drain_iter (vq p) k Hr) as H; cbv zeta in H.
  destruct (Nat.iter k live_drain_step (vq p, None)) as [q' nw].
  cbn [fst snd] in H.
  destruct H as (Hread & Hcount & Hwrite & Hsame & Hnew).
  set (r := video_queue_read (vq p)) in *.
  set (t := Z.rem (r + video_queue_count (vq p) - 1) VIDEO_QUEUE_SIZE) in *.
  assert (Hk : Z.of_nat k = video_queue_count (vq p) - 1) by lia.
  assert (Ht : video_queue_read q' = t) by (rewrite Hread, Hk; unfold t; f_equal; lia).
  assert (Hnot : forall i, (i < k)%nat -> t <> Z.rem (r + Z.of_nat i) VIDEO_QUEUE_SIZE).
  { intros i Hi E. unfold t in E.
    replace (r + video_queue_count (vq p) - 1) with (r + Z.of_nat k) in E by lia.
    apply (rem_distinct VIDEO_QUEUE_SIZE r (Z.of_nat i) (Z.of_nat k)); unfold VIDEO_QUEUE_SIZE in *;
      [unfold r; lia | lia | lia | lia | symmetry; exact E]. }
  assert (Hq't : video_queue q' t = video_queue (vq p) t) by (apply Hsame; exact Hnot).
  unfold live_drain_step; rewrite Ht, Hq't, Hv.
  assert (Hfinal : (match nw with
                    | Some j => upd (video_queue q') j (invalidate (video_queue q' j))
                    | None => video_queue q' end) t = video_queue (vq p) t).
  { destruct nw as [j|]; [|exact Hq't].
    destruct Hnew as (i & Hi & ->).
    unfold upd; rewrite (proj2 (Z.eqb_neq _ _) (Hnot i Hi)); exact Hq't. }
  cbn - [upd]. rewrite Hfinal.
  repeat split; lia.
Qed.

Lemma live_update_surfaces_newest_only_witness :
  let p := run_worker (playing_player true 1) 0 (video_packets 10) in
  let q := vq p in
  let e := video_queue q (Z.rem (video_queue_read q + video_queue_count q - 1) VIDEO_QUEUE_SIZE) in
  let '(n, p', cbs) := prism_player_update p 0 in
  n = 1 /\ video_queue_count (vq p') = 0 /\
  disp p' = show_entry (disp p) e /\ display_ready (disp p') = true /\
  current_pts (clk p') = pts e /\ video_pts (clk p') = pts e /\
  cbs = (if has_video_callback (sess p) then [callback_event (show_entry (disp p) e)] else []).
Proof.
  apply live_update_surfaces_newest_only; vm_compute;
    first [reflexivity | left; reflexivity | split; first [discriminate | reflexivity]].
Defined.

(** ** Pushing into a full queue *)

(** C5: for a live source, pushing into a full queue (8 entries, write
    cursor on the read cursor) first evicts the oldest entry (read cursor
    +1, count 7, its slot marked invalid) and then stores the new one: the
    queued entries become the old ones minus the oldest, plus the new one,
    still 8.  For a finite source the same push stores nothing.  Ten frames
    decoded back to back on a live source with no pump tick leave frames
    3..10 queued. *)
Theorem live_push_evicts_oldest :
  forall (q : VideoQueue) (e : VideoFrameEntry),
    0 <= video_queue_read q < VIDEO_QUEUE_SIZE ->
    video_queue_write q = video_queue_read q ->
    video_queue_count q = VIDEO_QUEUE_SIZE ->
    (video_queue_read (drop_oldest q) = Z.rem (video_queue_read q + 1) VIDEO_QUEUE_SIZE /\
     video_queue_count (drop_oldest q) = VIDEO_QUEUE_SIZE - 1 /\
     valid (video_queue (drop_oldest q) (video_queue_read q)) = false /\
     push_video true q e = push_video true (drop_oldest q) e) /\
    video_queue_count (push_video true q e) = VIDEO_QUEUE_SIZE /\
    video_queue_read (push_video true q e) = Z.rem (video_queue_read q + 1) VIDEO_QUEUE_SIZE /\
    queue_contents (push_video true q e) = tl (queue_contents q) ++ [e] /\
    push_video false q e = q /\
    map data (queue_contents (vq (run_worker (playing_player true (-1)) 0 (video_packets 10))))
    = [3; 4; 5; 6; 7; 8; 9; 10].
Proof.
  intros [a w r c] e Hr Hw Hc; cbn in Hr, Hw, Hc; subst w c.
  split; [|split; [|split; [|split; [|split]]]].
  - cbn. repeat split.
    + unfold upd; rewrite Z.eqb_refl; reflexivity.
  - reflexivity.
  - reflexivity.
  - unfold VIDEO_QUEUE_SIZE in Hr.
    assert (r = 0 \/ r = 1 \/ r = 2 \/ r = 3 \/ r = 4 \/ r = 5 \/ r = 6 \/ r = 7) as Hcases by lia.
    repeat destruct Hcases as [-> | Hcases]; try (subst r); reflexivity.
  - reflexivity.
  - vm_compute; reflexivity.
Qed.

Lemma live_push_evicts_oldest_witness :
  let q := vq (run_worker (playing_player true (-1)) 0 (video_packets 8)) in
  let e := {| data := 9; width := 4; height := 2; stride := 16; pts := 9 # 30; valid := true |} in
  (video_queue_read (drop_oldest q) = Z.rem (video_queue_read q + 1) VIDEO_QUEUE_SIZE /\
   video_queue_count (drop_oldest q) = VIDEO_QUEUE_SIZE - 1 /\
   valid (video_queue (drop_oldest q) (video_queue_read q)) = false /\
   push_video true q e = push_video true (drop_oldest q) e) /\
  video_queue_count (push_video true q e) = VIDEO_QUEUE_SIZE /\
  video_queue_read (push_video true q e) = Z.rem (video_queue_read q + 1) VIDEO_QUEUE_SIZE /\
  queue_contents (push_video true q e) = tl (queue_contents q) ++ [e] /\
  push_video false q e = q /\
  map data (queue_contents (vq (run_worker (playing_player true (-1)) 0 (video_packets 10))))
  = [3; 4; 5; 6; 7; 8; 9; 10].
Proof.
  apply live_push_evicts_oldest; vm_compute;
    first [reflexivity | split; first [discriminate | reflexivity]].
Defined.

(** ** Audio ring writes *)

Lemma map_seq_shift :
  forall {A} (f : nat -> A) d m s,
    map f (seq (d + s) m) = map (fun i => f (d + i)%nat) (seq s m).
Proof.
  intros A f d m; induction m as [|m IH]; intros s; [reflexivity|].
  cbn. f_equal. rewrite <- Nat.add_succ_r. apply IH.
Qed.

(** Storing one sample when there is room appends it to the stored ones. *)
Lemma ring_put_contents :
  forall r x,
    audio_buffer r <> None -> 0 < audio_buffer_size r -> 0 <= audio_read_pos r ->
    0 <= audio_available r < audio_buffer_size r ->
    audio_write_pos r = Z.rem (audio_read_pos r + audio_available r) (audio_buffer_size r) ->
    ring_contents (ring_put r x) = ring_contents r ++ [x].
Proof.
  intros [[b|] size w rd av] x Hb Hs Hr Ha Hw; cbn in *; [|contradiction].
  unfold ring_put, ring_contents; cbn.
  rewrite (proj2 (Z.ltb_lt _ _) (proj2 Ha)); cbn.
  replace (Z.to_nat (av + 1)) with (S (Z.to_nat av)) by lia.
  rewrite seq_S, map_app; cbn [map].
  f_equal.
  - apply map_ext_in; intros i Hi; apply in_seq in Hi.
    unfold upd. rewrite Hw.
    rewrite (proj2 (Z.eqb_neq _ _)); [reflexivity|].
    apply rem_distinct; lia.
  - unfold upd. rewrite Hw, Nat.add_0_l, Z2Nat.id by lia.
    rewrite Z.eqb_refl; reflexivity.
Qed.

(** The write loop, when every sample fits, appends all of them. *)
Lemma ring_write_loop_contents :
  forall xs r,
    audio_buffer r <> None -> 0 < audio_buffer_size r -> 0 <= audio_read_pos r ->
    0 <= audio_available r ->
    audio_available r + Z.of_nat (length xs) <= audio_buffer_size r ->
    audio_write_pos r = Z.rem (audio_read_pos r + audio_available r) (audio_buffer_size r) ->
    ring_contents (ring_write_loop r xs) = ring_contents r ++ xs.
Proof.
  induction xs as [|x xs IH]; intros r Hb Hs Hr Ha Hlen Hw.
  - cbn; rewrite app_nil_r; reflexivity.
  - cbn [length] in Hlen. unfold ring_write_loop; cbn [fold_left].
    fold (ring_write_loop (ring_put r x) xs).
    assert (Hlt : audio_available r < audio_buffer_size r) by lia.
    rewrite IH.
    + rewrite ring_put_contents by (auto; lia). rewrite <- app_assoc; reflexivity.
    + unfold ring_put; rewrite (proj2 (Z.ltb_lt _ _) Hlt); cbn.
      destruct (audio_buffer r); [discriminate | contradiction].
    + unfold ring_put; rewrite (proj2 (Z.ltb_lt _ _) Hlt); exact Hs.
    + unfold ring_put; rewrite (proj2 (Z.ltb_lt _ _) Hlt); exact Hr.
    + unfold ring_put; rewrite (proj2 (Z.ltb_lt _ _) Hlt); cbn; lia.
    + unfold ring_put; rewrite (proj2 (Z.ltb_lt _ _) Hlt); cbn; lia.
    + unfold ring_put; rewrite (proj2 (Z.ltb_lt _ _) Hlt); cbn.
      rewrite Hw, rem_succ_rem by lia. f_equal; lia.
Qed.

(** The write loop, when every sample fits, stores every one of them. *)
Lemma ring_write_loop_counts :
  forall xs r,
    0 < audio_buffer_size r -> 0 <= audio_write_pos r < audio_buffer_size r ->
    audio_available r + Z.of_nat (length xs) <= audio_buffer_size r ->
    let r' := ring_write_loop r xs in
    audio_available r' = audio_available r + Z.of_nat (length xs) /\
    audio_write_pos r' = Z.rem (audio_write_pos r + Z.of_nat (length xs)) (audio_buffer_size r) /\
    audio_read_pos r' = audio_read_pos r /\
    audio_buffer_size r' = audio_buffer_size r.
Proof.
  induction xs as [|x xs IH]; intros r Hs Hw Hlen; cbv zeta.
  - cbn. repeat split; try lia. rewrite Z.add_0_r; symmetry; apply rem_small; lia.
  - cbn [length] in Hlen. unfold ring_write_loop; cbn [fold_left].
    fold (ring_write_loop (ring_put r x) xs).
    assert (Hlt : audio_available r < audio_buffer_size r) by lia.
    assert (Hput : audio_available (ring_put r x) = audio_available r + 1 /\
                   audio_write_pos (ring_put r x) =
                     Z.rem (audio_write_pos r + 1) (audio_buffer_size r) /\
                   audio_read_pos (ring_put r x) = audio_read_pos r /\
                   audio_buffer_size (ring_put r x) = audio_buffer_size r)
      by (unfold ring_put; rewrite (proj2 (Z.ltb_lt _ _) Hlt); cbn; auto).
    destruct Hput as (Pa & Pw & Pr & Ps).
    assert (0 <= Z.rem (audio_write_pos r + 1) (audio_buffer_size r) < audio_buffer_size r).
    { split; [apply Z.rem_nonneg; lia|].
      rewrite Z.rem_mod_nonneg by lia. apply Z.mod_pos_bound; lia. }
    destruct (IH (ring_put r x)) as (Ia & Iw & Ir & Is); rewrite ?Pa, ?Pw, ?Ps; try lia.
    cbn [length]; repeat split.
    + rewrite Ia, Pa; lia.
    + rewrite Iw, Pw, Ps, rem_add_rem by lia. f_equal; lia.
    + rewrite Ir, Pr; reflexivity.
    + rewrite Is, Ps; reflexivity.
Qed.

(** Dropping [d] of the stored samples removes the [d] oldest. *)
Lemma ring_drop_contents :
  forall r d,
    audio_buffer r <> None -> 0 < audio_buffer_size r -> 0 <= audio_read_pos r ->
    0 <= d <= audio_available r ->
    ring_contents (ring_drop r d) = skipn (Z.to_nat d) (ring_contents r).
Proof.
  intros [[b|] size w rd av] d Hb Hs Hr Hd; cbn in *; [|contradiction].
  unfold ring_contents; cbn.
  rewrite skipn_map, skipn_seq, Nat.add_0_l.
  replace (Z.to_nat av - Z.to_nat d)%nat with (Z.to_nat (av - d)) by lia.
  rewrite <- (Nat.add_0_r (Z.to_nat d)) at 1.
  rewrite map_seq_shift.
  apply map_ext; intros i.
  rewrite rem_add_rem by lia. f_equal. f_equal. lia.
Qed.

(** C6: for a live source, when the free space of a well-formed ring is
    smaller than the incoming sample count, the write first advances the
    read cursor and lowers the available count by the shortfall, then
    stores every new sample (the available count rises by the full sample
    count, to the capacity); when the new samples fit in the ring at all,
    the stored samples become the old ones minus the shortfall's oldest,
    followed by all the new ones. *)
Theorem live_audio_write_drops_oldest :
  forall (r : AudioRing) (samples : list Z),
    0 < audio_buffer_size r ->
    0 <= audio_read_pos r < audio_buffer_size r ->
    0 <= audio_available r <= audio_buffer_size r ->
    audio_write_pos r = Z.rem (audio_read_pos r + audio_available r) (audio_buffer_size r) ->
    audio_buffer r <> None ->
    audio_buffer_size r - audio_available r < Z.of_nat (length samples) ->
    let to_drop := Z.of_nat (length samples) - (audio_buffer_size r - audio_available r) in
    let r' := write_audio true r samples in
    audio_read_pos r' = Z.rem (audio_read_pos r + to_drop) (audio_buffer_size r) /\
    audio_available r' = (audio_available r - to_drop) + Z.of_nat (length samples) /\
    audio_available r' = audio_buffer_size r /\
    audio_write_pos r' = Z.rem (audio_write_pos r + Z.of_nat (length samples)) (audio_buffer_size r) /\
    (Z.of_nat (length samples) <= audio_buffer_size r ->
     ring_contents r' = skipn (Z.to_nat to_drop) (ring_contents r) ++ samples).
Proof.
  intros r samples Hs Hr Ha Hw Hb Hshort; cbv zeta.
  unfold write_audio; cbv zeta.
  rewrite (proj2 (Z.ltb_lt _ _) Hshort).
  set (n := Z.of_nat (length samples)) in *.
  set (d := n - (audio_buffer_size r - audio_available r)).
  assert (Hw' : 0 <= audio_write_pos r < audio_buffer_size r).
  { rewrite Hw; split; [apply Z.rem_nonneg; lia|].
    rewrite Z.rem_mod_nonneg by lia. apply Z.mod_pos_bound; lia. }
  destruct (ring_write_loop_counts samples (ring_drop r d)) as (Ca & Cw & Cr & Cs);
    cbn [ring_drop audio_buffer_size audio_write_pos audio_available]; fold n; try lia.
  repeat split.
  - rewrite Cr; reflexivity.
  - rewrite Ca; reflexivity.
  - rewrite Ca; cbn; lia.
  - rewrite Cw; reflexivity.
  - intros Hfit.
    rewrite ring_write_loop_contents.
    + rewrite ring_drop_contents by (auto; lia). reflexivity.
    + exact Hb.
    + exact Hs.
    + cbn. apply Z.rem_nonneg; lia.
    + cbn; lia.
    + cbn; fold n; lia.
    + cbn. rewrite Hw, rem_add_rem by lia. f_equal; lia.
Qed.

(** A frame of 20 samples arrives: 10 old ones are dropped. *)
Lemma live_audio_write_drops_oldest_witness :
  let r := nearly_full_ring in
  let samples := map Z.of_nat (seq 1 20) in
  let to_drop := Z.of_nat (length samples) - (audio_buffer_size r - audio_available r) in
  let r' := write_audio true r samples in
  audio_read_pos r' = Z.rem (audio_read_pos r + to_drop) (audio_buffer_size r) /\
  audio_available r' = (audio_available r - to_drop) + Z.of_nat (length samples) /\
  audio_available r' = audio_buffer_size r /\
  audio_write_pos r' = Z.rem (audio_write_pos r + Z.of_nat (length samples)) (audio_buffer_size r) /\
  (Z.of_nat (length samples) <= audio_buffer_size r ->
   ring_contents r' = skipn (Z.to_nat to_drop) (ring_contents r) ++ samples).
Proof.
  apply live_audio_write_drops_oldest; vm_compute;
    first [reflexivity | discriminate | split; first [discriminate | reflexivity]].
Defined.

(** * Further properties of the player *)

(** ** Well-formed video queue *)

Lemma rem_range :
  forall m x, 0 < m -> 0 <= x -> 0 <= Z.rem x m < m.
Proof.
  intros m x Hm Hx. rewrite Z.rem_mod_nonneg by lia. apply Z.mod_pos_bound; lia.
Qed.

Lemma rem_neq_start :
  forall m r j, 0 <= r < m -> 0 < j < m -> Z.rem (r + j) m <> r.
Proof.
  intros m r j Hr Hj E.
  apply (rem_distinct m r 0 j); try lia.
  rewrite E, Z.add_0_r, rem_small by lia. reflexivity.
Qed.

Lemma firstn_seq_le :
  forall k s m, (k <= m)%nat -> firstn k (seq s m) = seq s k.
Proof.
  induction k as [|k IH]; intros s m Hk; [reflexivity|].
  destruct m as [|m]; [lia|]. cbn. f_equal. apply IH; lia.
Qed.

(** Dropping the head of a well-formed non-empty queue leaves a
    well-formed queue holding the rest, in order. *)
Lemma drop_oldest_wf :
  forall q, vq_wf q -> 0 < video_queue_count q ->
    vq_wf (drop_oldest q) /\ queue_contents q = video_queue q (video_queue_read q) ::
                                                queue_contents (drop_oldest q).
Proof.
  intros [a w r c] (Hc & Hr & Hw & Hv) Hpos; cbn in *.
  unfold VIDEO_QUEUE_SIZE in *.
  pose proof (rem_range 8 (r + 1) ltac:(lia) ltac:(lia)) as Hr'.
  split.
  - unfold vq_wf, drop_oldest, VIDEO_QUEUE_SIZE; cbn.
    split; [lia|]. split; [exact Hr'|]. split.
    + rewrite Hw, rem_add_rem by lia. f_equal; lia.
    + intros i Hi. unfold upd. rewrite rem_add_rem by lia.
      replace (r + 1 + i) with (r + (1 + i)) by lia.
      rewrite (proj2 (Z.eqb_neq _ _)).
      * apply Hv; lia.
      * apply rem_neq_start; lia.
  - unfold queue_contents, drop_oldest, VIDEO_QUEUE_SIZE; cbn.
    replace (Z.to_nat c) with (S (Z.to_nat (c - 1))) by lia.
    cbn [seq map]. f_equal.
    + rewrite Z.add_0_r, rem_small by lia. reflexivity.
    + change (seq 1 (Z.to_nat (c - 1))) with (seq (1 + 0) (Z.to_nat (c - 1))).
      rewrite map_seq_shift. apply map_ext_in; intros i Hi; apply in_seq in Hi.
      unfold upd. rewrite rem_add_rem by lia.
      replace (r + 1 + Z.of_nat i) with (r + Z.of_nat (1 + i)) by lia.
      rewrite (proj2 (Z.eqb_neq _ _)); [reflexivity|].
      apply rem_neq_start; lia.
Qed.

(** Writing a valid entry at the write cursor of a well-formed queue with
    room appends it. *)
Lemma queue_insert_wf :
  forall q e, vq_wf q -> video_queue_count q < VIDEO_QUEUE_SIZE -> valid e = true ->
    let q' := {| video_queue := upd (video_queue q) (video_queue_write q) e;
                 video_queue_write := Z.rem (video_queue_write q + 1) VIDEO_QUEUE_SIZE;
                 video_queue_read := video_queue_read q;
                 video_queue_count := video_queue_count q + 1 |} in
    vq_wf q' /\ queue_contents q' = queue_contents q ++ [e].
Proof.
  intros [a w r c] e (Hc & Hr & Hw & Hv) Hlt He; cbn in *.
  unfold VIDEO_QUEUE_SIZE in *.
  split.
  - unfold vq_wf, VIDEO_QUEUE_SIZE; cbn.
    split; [lia|]. split; [lia|]. split.
    + rewrite Hw, rem_succ_rem by lia. f_equal; lia.
    + intros i Hi. unfold upd. rewrite Hw.
      destruct (Z.eq_dec i c) as [->|Hne].
      * rewrite Z.eqb_refl; exact He.
      * rewrite (proj2 (Z.eqb_neq _ _)); [apply Hv; lia|].
        apply rem_distinct; lia.
  - unfold queue_contents, VIDEO_QUEUE_SIZE; cbn.
    replace (Z.to_nat (c + 1)) with (S (Z.to_nat c)) by lia.
    rewrite seq_S, map_app; cbn [map]. f_equal.
    + apply map_ext_in; intros i Hi; apply in_seq in Hi.
      unfold upd. rewrite Hw, (proj2 (Z.eqb_neq _ _)); [reflexivity|].
      apply rem_distinct; lia.
    + unfold upd. rewrite Hw, Nat.add_0_l, Z2Nat.id, Z.eqb_refl by lia. reflexivity.
Qed.

Lemma push_video_wf :
  forall live q e, vq_wf q -> valid e = true ->
    vq_wf (push_video live q e) /\
    queue_contents (push_video live q e) =
      if video_queue_count q <? VIDEO_QUEUE_SIZE then queue_contents q ++ [e]
      else if live then tl (queue_contents q) ++ [e]
      else queue_contents q.
Proof.
  intros live q e Hq He. pose proof Hq as (Hc & _).
  unfold push_video.
  destruct (Z.ltb_spec (video_queue_count q) VIDEO_QUEUE_SIZE) as [Hlt|Hge].
  - rewrite (proj2 (Z.leb_gt _ _) Hlt), andb_false_r, (proj2 (Z.ltb_lt _ _) Hlt).
    apply queue_insert_wf; auto.
  - rewrite (proj2 (Z.leb_le _ _) Hge), andb_true_r.
    destruct live.
    + destruct (drop_oldest_wf q Hq ltac:(unfold VIDEO_QUEUE_SIZE in *; lia)) as [Hd Hcd].
      assert (Hlt : video_queue_count (drop_oldest q) < VIDEO_QUEUE_SIZE)
        by (cbn; lia).
      rewrite (proj2 (Z.ltb_lt _ _) Hlt).
      destruct (queue_insert_wf _ e Hd Hlt He) as [W C].
      split; [exact W|]. rewrite C, Hcd. reflexivity.
    + rewrite (proj2 (Z.ltb_ge _ _) Hge). auto.
Qed.

(** ** Well-formed audio ring *)

Lemma ring_put_shape :
  forall r x, audio_buffer_size (ring_put r x) = audio_buffer_size r /\
    (audio_buffer (ring_put r x) = None <-> audio_buffer r = None).
Proof.
  intros [[b|] size w rd av] x; unfold ring_put; cbn;
    destruct (av <? size); cbn; intuition congruence.
Qed.

Lemma ring_write_loop_shape :
  forall xs r, audio_buffer_size (ring_write_loop r xs) = audio_buffer_size r /\
    (audio_buffer (ring_write_loop r xs) = None <-> audio_buffer r = None).
Proof.
  induction xs as [|x xs IH]; intros r; [cbn; tauto|].
  unfold ring_write_loop; cbn [fold_left]. fold (ring_write_loop (ring_put r x) xs).
  destruct (ring_put_shape r x) as [S B]. destruct (IH (ring_put r x)) as [S' B'].
  split; [congruence | tauto].
Qed.

Lemma write_audio_shape :
  forall live r xs, audio_buffer_size (write_audio live r xs) = audio_buffer_size r /\
    (audio_buffer (write_audio live r xs) = None <-> audio_buffer r = None).
Proof.
  intros live r xs. unfold write_audio.
  match goal with |- context [ring_write_loop ?r1 xs] =>
    destruct (ring_write_loop_shape xs r1) as [S B]; rewrite S, B end.
  destruct live; [destruct (_ <? _)|]; cbn; tauto.
Qed.

Lemma ring_put_wf :
  forall r x, ring_wf r -> 0 < audio_buffer_size r -> ring_wf (ring_put r x).
Proof.
  intros [b size w rd av] x (Ha & Hr & Hw0 & Hin) Hs; cbn in *.
  destruct (Hin Hs) as [Hrs Hw].
  unfold ring_put; cbn.
  destruct (Z.ltb_spec av size) as [Hlt|Hge]; cbn.
  - unfold ring_wf; cbn. split; [lia|]. split; [lia|]. split.
    + apply Z.rem_nonneg; lia.
    + intros _. split; [lia|]. rewrite Hw, rem_succ_rem by lia. f_equal; lia.
  - unfold ring_wf; cbn; auto.
Qed.

Lemma ring_write_loop_wf :
  forall xs r, ring_wf r -> 0 < audio_buffer_size r -> ring_wf (ring_write_loop r xs).
Proof.
  induction xs as [|x xs IH]; intros r Hr Hs; [exact Hr|].
  unfold ring_write_loop; cbn [fold_left]. fold (ring_write_loop (ring_put r x) xs).
  apply IH; [apply ring_put_wf; auto|].
  rewrite (proj1 (ring_put_shape r x)); exact Hs.
Qed.

Lemma write_audio_wf :
  forall live r xs, ring_wf r -> 0 < audio_buffer_size r -> ring_wf (write_audio live r xs).
Proof.
  intros live r xs Hr Hs. unfold write_audio.
  destruct live; [|apply ring_write_loop_wf; auto].
  destruct (Z.ltb_spec (audio_buffer_size r - audio_available r)
                       (Z.of_nat (length xs))) as [Hlt|Hge];
    [|apply ring_write_loop_wf; auto].
  destruct r as [b size w rd av]; cbn in *.
  destruct Hr as (Ha & Hr & Hw0 & Hin). destruct (Hin Hs) as [Hrs Hw]. cbn in *.
  set (total := Z.of_nat (length xs)) in *.
  destruct (ring_write_loop_counts xs (ring_drop {| audio_buffer := b; audio_buffer_size := size;
      audio_write_pos := w; audio_read_pos := rd; audio_available := av |}
      (total - (size - av)))) as (Ca & Cw & Cr & Cs); cbn.
  - exact Hs.
  - rewrite Hw. apply rem_range; lia.
  - fold total; lia.
  - cbn in *. fold total in Ca, Cw.
    unfold ring_wf. rewrite Ca, Cw, Cr, Cs.
    split; [lia|]. split; [apply Z.rem_nonneg; lia|]. split; [apply Z.rem_nonneg; lia|].
    intros _. split; [apply rem_range; lia|].
    rewrite Hw, !rem_add_rem by lia. f_equal. lia.
Qed.

(** The copy loop of [prism_player_get_audio_samples] reads [n]
    consecutive slots from [pos] and leaves the cursor [n] slots on. *)
Lemma ring_read_loop_spec :
  forall n b size pos, 0 <= pos < size ->
    ring_read_loop n b size pos =
      (map (fun i => b (Z.rem (pos + Z.of_nat i) size)) (seq 0 n),
       Z.rem (pos + Z.of_nat n) size).
Proof.
  induction n as [|n IH]; intros b size pos Hp.
  - cbn. rewrite Z.add_0_r, rem_small by lia. reflexivity.
  - cbn [ring_read_loop]. rewrite IH by (apply rem_range; lia).
    cbn [seq map]. f_equal; [f_equal|].
    + rewrite Z.add_0_r, rem_small by lia. reflexivity.
    + change (seq 1 n) with (seq (1 + 0) n). rewrite map_seq_shift.
      apply map_ext; intros i. rewrite rem_add_rem by lia. f_equal. f_equal. lia.
    + rewrite rem_add_rem by lia. f_equal. lia.
Qed.

(** A read of [max_samples >= 0] from a well-formed ring returns the
    oldest [min available max_samples] samples and leaves the rest. *)
Lemma get_audio_samples_read :
  forall p max_samples, ring_wf (ring p) -> audio_buffer (ring p) <> None -> 0 <= max_samples ->
    let '(n, out, p') := prism_player_get_audio_samples p true max_samples in
    n = Z.min (audio_available (ring p)) max_samples /\
    out = firstn (Z.to_nat n) (ring_contents (ring p)) /\
    ring_contents (ring p') = skipn (Z.to_nat n) (ring_contents (ring p)) /\
    ring_wf (ring p') /\
    audio_available (ring p') = audio_available (ring p) - n /\
    audio_buffer (ring p') = audio_buffer (ring p) /\
    audio_buffer_size (ring p') = audio_buffer_size (ring p) /\
    sess p' = sess p /\ ctl p' = ctl p /\ clk p' = clk p /\ vq p' = vq p /\ disp p' = disp p.
Proof.
  intros [s c k q d [[b|] size w rd av]] m Hr Hb Hm; unfold ring_wf in Hr; cbn in *;
    [|contradiction].
  destruct Hr as (Ha & Hr & Hw0 & Hin).
  unfold prism_player_get_audio_samples; cbn.
  set (n := if av <? m then av else m).
  assert (Hn : n = Z.min av m) by (unfold n; destruct (Z.ltb_spec av m); lia).
  assert (Hn0 : 0 <= n <= av) by lia.
  destruct (Z.eq_dec size 0) as [Hs0|Hs1].
  - (* an empty ring: nothing to copy *)
    assert (n = 0) as E by lia. rewrite E. cbn.
    unfold ring_contents, ring_wf; cbn. rewrite !Z.sub_0_r.
    repeat split; auto; lia.
  - assert (Hs : 0 < size) by lia. destruct (Hin Hs) as [Hrs Hw].
    cbn in Hrs, Hw.
    rewrite ring_read_loop_spec by lia.
    rewrite Z2Nat.id by lia.
    split; [exact Hn|]. split; [|split; [|split]].
    + unfold ring_contents; cbn. rewrite firstn_map, firstn_seq_le by lia. reflexivity.
    + pose proof (ring_drop_contents {| audio_buffer := Some b; audio_buffer_size := size;
        audio_write_pos := w; audio_read_pos := rd; audio_available := av |} n) as D.
      cbn in D. rewrite <- D by (try discriminate; lia). reflexivity.
    + unfold ring_wf; cbn. split; [lia|]. split; [apply Z.rem_nonneg; lia|].
      split; [lia|]. intros _. split; [apply rem_range; lia|].
      rewrite Hw, rem_add_rem by lia. f_equal; lia.
    + repeat split.
Qed.

(** The finite-mode write stores the samples that fit, in order, and
    drops the others. *)
Lemma ring_write_loop_fits :
  forall xs r, ring_wf r -> audio_buffer r <> None -> 0 < audio_buffer_size r ->
    ring_contents (ring_write_loop r xs) =
      ring_contents r ++ firstn (Z.to_nat (audio_buffer_size r - audio_available r)) xs.
Proof.
  induction xs as [|x xs IH]; intros r Hr Hb Hs.
  - cbn. rewrite firstn_nil, app_nil_r. reflexivity.
  - unfold ring_write_loop; cbn [fold_left]. fold (ring_write_loop (ring_put r x) xs).
    pose proof Hr as (Ha & Hrp & Hw0 & Hin). destruct (Hin Hs) as [Hrs Hw].
    destruct (Z.ltb_spec (audio_available r) (audio_buffer_size r)) as [Hlt|Hge].
    + rewrite IH.
      * rewrite ring_put_contents by (auto; lia).
        replace (Z.to_nat (audio_buffer_size r - audio_available r))
          with (S (Z.to_nat (audio_buffer_size r - (audio_available r + 1)))) by lia.
        unfold ring_put. rewrite (proj2 (Z.ltb_lt _ _) Hlt). cbn.
        rewrite <- app_assoc. reflexivity.
      * apply ring_put_wf; auto.
      * intro E. apply (proj1 (proj2 (ring_put_shape r x))) in E. contradiction.
      * rewrite (proj1 (ring_put_shape r x)); exact Hs.
    + assert (E : ring_put r x = r)
        by (unfold ring_put; rewrite (proj2 (Z.ltb_ge _ _) Hge); reflexivity).
      rewrite E, IH by auto.
      replace (audio_buffer_size r - audio_available r) with 0 by lia. reflexivity.
Qed.

(** ** Every call keeps the player well formed *)

Ltac split_ifs :=
  repeat match goal with
         | |- context [if ?b then _ else _] =>
             lazymatch b with
             | context [if _ then _ else _] => fail
             | _ => destruct b eqn:?
             end
         end.

(** The pump only moves queue entries to the display slot and the clock. *)
Lemma update_shape :
  forall p now, vq_wf (vq p) ->
    let p' := snd (fst (prism_player_update p now)) in
    vq_wf (vq p') /\ sess p' = sess p /\ ring p' = ring p /\ ctl p' = ctl p.
Proof.
  intros p now Hq. cbv zeta. unfold prism_player_update.
  destruct (negb _ && negb _); [cbn; auto|].
  destruct (is_live (sess p)) eqn:Hlive.
  - unfold update_live.
    pose proof Hq as (Hc & Hr & Hw & Hv).
    destruct (live_drain_iter (vq p) (Z.to_nat (video_queue_count (vq p))) Hr)
      as (Dr & Dc & Dw & _ & _).
    unfold live_drain. destruct (Nat.iter _ _ _) as [q [j|]] eqn:E; cbn in Dr, Dc, Dw |- *;
      rewrite Z2Nat.id in Dr, Dc by lia.
    + unfold vq_wf; cbn. rewrite Dr, Dc, Dw, Hw. split; [|auto].
      split; [unfold VIDEO_QUEUE_SIZE; lia|]. split; [apply rem_range; unfold VIDEO_QUEUE_SIZE; lia|].
      split; [rewrite rem_add_rem by (unfold VIDEO_QUEUE_SIZE; lia); f_equal; lia|].
      intros i Hi; lia.
    + unfold vq_wf; cbn. rewrite Dr, Dc, Dw, Hw. split; [|auto].
      split; [unfold VIDEO_QUEUE_SIZE; lia|]. split; [apply rem_range; unfold VIDEO_QUEUE_SIZE; lia|].
      split; [rewrite rem_add_rem by (unfold VIDEO_QUEUE_SIZE; lia); f_equal; lia|].
      intros i Hi; lia.
  - pose proof Hq as (Hc & Hr & Hw & Hv).
    destruct (Z.eq_dec (video_queue_count (vq p)) 0) as [H0|H0].
    + rewrite H0. cbn. auto.
    + replace (Z.to_nat (video_queue_count (vq p)))
        with (S (Z.to_nat (video_queue_count (vq p) - 1))) by lia.
      cbn [update_vod].
      rewrite (proj2 (Z.leb_gt _ _)) by lia.
      assert (Hhead : valid (video_queue (vq p) (video_queue_read (vq p))) = true).
      { pose proof (Hv 0 ltac:(lia)) as V. rewrite Z.add_0_r, rem_small in V by exact Hr.
        exact V. }
      rewrite Hhead. cbn [negb].
      destruct (Qle_bool _ _); cbn; [|auto].
      split; [|auto].
      apply (drop_oldest_wf (vq p) Hq ltac:(lia)).
Qed.

(** One decoder iteration: the session and display are untouched, the
    queue gets at most one valid entry pushed, the ring at most one
    audio write (only with a resampler). *)
Lemma decoder_iteration_shape :
  forall p now rd,
    let p' := worker_state (decoder_iteration p now rd) in
    sess p' = sess p /\ disp p' = disp p /\
    (vq p' = vq p \/ exists e, valid e = true /\ vq p' = push_video (is_live (sess p)) (vq p) e) /\
    (ring p' = ring p \/
     exists xs, has_swr_ctx (sess p) = true /\ ring p' = write_audio (is_live (sess p)) (ring p) xs).
Proof.
  intros p now rd. cbv zeta. unfold decoder_iteration.
  destruct (stop_requested (ctl p)); [cbn; auto|].
  destruct (negb _); [cbn; auto|].
  destruct (backpressure p); [cbn; auto|].
  destruct rd as [| |si pl]; cbn [worker_state].
  - destruct (_ && _); cbn; auto.
  - auto.
  - destruct pl as [|pix fpts|apts samples].
    + split_ifs; cbn; auto.
    + split_ifs; cbn; auto;
        unfold decode_video; destruct (first_frame_decoded (ctl p)); cbn;
        (split; [reflexivity|]); (split; [reflexivity|]);
        (split; [right; eexists; split; [|reflexivity]; reflexivity | auto]).
    + split_ifs; cbn; auto;
      unfold decode_audio; destruct apts; split_ifs; cbn; auto;
        (split; [reflexivity|]); (split; [reflexivity|]);
        (split; [auto|right; eexists; split; [first [assumption|reflexivity]|reflexivity]]).
Qed.

Lemma player_wf_frame :
  forall p p', player_wf p -> vq p' = vq p -> ring p' = ring p ->
    has_swr_ctx (sess p') = has_swr_ctx (sess p) -> player_wf p'.
Proof.
  intros p p' (Q & R & S) Eq Er Es. unfold player_wf. rewrite Eq, Er, Es. auto.
Qed.

Lemma clear_queues_wf :
  forall p, 0 <= audio_buffer_size (ring p) ->
    let p' := clear_queues p in
    vq_wf (vq p') /\ ring_wf (ring p') /\ sess p' = sess p /\ ctl p' = ctl p /\
    clk p' = clk p /\ audio_buffer (ring p') = audio_buffer (ring p) /\
    audio_buffer_size (ring p') = audio_buffer_size (ring p).
Proof.
  intros p Hs. cbv zeta. unfold clear_queues, vq_wf, ring_wf; cbn.
  unfold VIDEO_QUEUE_SIZE.
  repeat split; try lia.
Qed.

Lemma ring_size_nonneg : forall r, ring_wf r -> 0 <= audio_buffer_size r.
Proof. intros r (H & _); lia. Qed.

Lemma close_wf :
  forall p, player_wf p ->
    let p' := prism_player_close p in
    player_wf p' /\ has_swr_ctx (sess p') = false /\ audio_buffer (ring p') = None.
Proof.
  intros p (Q & R & S). cbv zeta.
  pose proof (ring_size_nonneg _ R) as Hs.
  unfold prism_player_close, player_wf.
  destruct (clear_queues_wf (set_ring (stop_decoder_thread p) {|
      audio_buffer := None;
      audio_buffer_size := audio_buffer_size (ring (stop_decoder_thread p));
      audio_write_pos := audio_write_pos (ring (stop_decoder_thread p));
      audio_read_pos := audio_read_pos (ring (stop_decoder_thread p));
      audio_available := audio_available (ring (stop_decoder_thread p)) |}))
    as (CQ & CR & _ & _ & _ & CB & _).
  - unfold stop_decoder_thread; destruct (negb _); cbn; exact Hs.
  - cbn. split; [split; [exact CQ|split; [exact CR|discriminate]]|].
    split; [reflexivity|]. exact CB.
Qed.

Lemma opened_audio_ring_wf : ring_wf opened_audio_ring.
Proof. unfold ring_wf, opened_audio_ring; cbn. repeat split; lia. Qed.

Lemma open_wf :
  forall p u m, player_wf p -> player_wf (snd (prism_player_open p u m)).
Proof.
  intros p u m Hp. unfold prism_player_open.
  destruct u; [|exact Hp]. cbn [negb].
  destruct (close_wf p Hp) as ((Q & R & _) & S & _).
  set (p0 := prism_player_close p) in *.
  assert (W : forall s, has_swr_ctx s = false ->
            player_wf (set_sess (set_ctl p0 (with_state (ctl p0) PRISM_STATE_OPENING)) s)).
  { intros s Hs. unfold player_wf; cbn. rewrite Hs. split; [exact Q|split; [exact R|discriminate]]. }
  assert (F : forall e q, player_wf q -> player_wf (snd (open_fail e q))).
  { intros e q Hq. apply (player_wf_frame q); auto. }
  destruct (probe_open_ok m); cbn [negb];
    [|apply F; apply (W (sess p0)) in S; exact S].
  destruct (probe_stream_info_ok m); cbn [negb];
    [|apply F; apply (W (sess p0)) in S; exact S].
  split_ifs; try (apply F; apply W; cbn; exact S).
  all: cbn [snd]; unfold player_wf; cbn; (split; [exact Q|]);
    (split; [first [exact R | exact opened_audio_ring_wf] |]);
    intros Hs; first [split; [discriminate | lia] | rewrite S in Hs; discriminate | discriminate].
Qed.

Lemma apply_op_wf :
  forall p op, player_wf p -> op_ok op = true -> player_wf (apply_op p op).
Proof.
  intros p op Hp Hop. pose proof Hp as (Q & R & S).
  destruct op as [u m|now rd|now| |b n|now| | |pos ok| |b|v|b]; cbn [apply_op].
  - apply open_wf; exact Hp.
  - destruct (decoder_iteration_shape p now rd) as (Es & _ & Eq & Er).
    unfold player_wf. rewrite Es. split; [|split].
    + destruct Eq as [-> | (e & He & ->)]; [exact Q|]. apply push_video_wf; auto.
    + destruct Er as [-> | (xs & Hswr & ->)]; [exact R|].
      apply write_audio_wf; [exact R | apply S; exact Hswr].
    + intros Hswr. destruct (S Hswr) as [Hb Hs].
      destruct Er as [-> | (xs & _ & ->)]; [auto|].
      destruct (write_audio_shape (is_live (sess p)) (ring p) xs) as [Ws Wb].
      rewrite Ws. split; [|exact Hs]. intro E. apply Wb in E. contradiction.
  - destruct (update_shape p now Q) as (Q' & Es & Er & _).
    unfold player_wf. rewrite Es, Er. auto.
  - apply (player_wf_frame p); auto;
      unfold prism_player_get_video_frame;
      destruct (display_ready (disp p)), (display_buffer (disp p)); reflexivity.
  - unfold prism_player_get_audio_samples.
    destruct (audio_buffer (ring p)) as [buf|] eqn:Hb; [|exact Hp].
    destruct b; [|exact Hp].
    cbn in Hop. apply Z.leb_le in Hop.
    pose proof (get_audio_samples_read p n R ltac:(congruence) Hop) as G.
    unfold prism_player_get_audio_samples in G. rewrite Hb in G.
    destruct (ring_read_loop _ _ _ _) as [out pos]. cbn [snd].
    destruct G as (_ & _ & _ & R' & _ & B' & S' & Es & _ & _ & Eq & _).
    unfold player_wf. cbn [set_ring sess vq ring audio_buffer audio_buffer_size] in *.
    split; [exact Q|]. split; [exact R'|].
    intros Hswr. split; [discriminate|]. apply S; exact Hswr.
  - apply (player_wf_frame p); auto; unfold prism_player_play;
      split_ifs; cbn; try reflexivity; unfold start_decoder_thread; split_ifs; reflexivity.
  - apply (player_wf_frame p); auto; unfold prism_player_pause; split_ifs; reflexivity.
  - unfold prism_player_stop. cbn [snd].
    match goal with |- player_wf (clear_queues ?q) =>
      assert (Hq : vq q = vq p /\ ring q = ring p /\ sess q = sess p)
        by (unfold stop_decoder_thread; split_ifs; cbn; auto);
      destruct (clear_queues_wf q) as (CQ & CR & CS & _ & _ & CB & CZ) end.
    + destruct Hq as (_ & -> & _). apply ring_size_nonneg; exact R.
    + unfold player_wf. rewrite CS, CB, CZ. destruct Hq as (_ & -> & ->). auto.
  - unfold prism_player_seek.
    destruct (negb _); [exact Hp|]. destruct (is_live _); [exact Hp|].
    assert (Hq1 : forall q, vq q = vq p -> ring q = ring p -> sess q = sess p ->
                 let q' := stop_decoder_thread q in
                 vq q' = vq p /\ ring q' = ring p /\ sess q' = sess p)
      by (intros q A B C; unfold stop_decoder_thread; split_ifs; cbn; auto).
    assert (Hq2 : forall q, player_wf q -> sess q = sess p ->
                 forall c : bool, player_wf (if c then start_decoder_thread q else q))
      by (intros q W E c; destruct c; [|exact W];
          apply (player_wf_frame q); auto; unfold start_decoder_thread; split_ifs; reflexivity).
    destruct ok; cbn [negb snd].
    + match goal with |- context [clear_queues ?q] =>
        assert (Hq : vq q = vq p /\ ring q = ring p /\ sess q = sess p)
          by (destruct (decoder_running (ctl p));
              [destruct (Hq1 p eq_refl eq_refl eq_refl) as (A & B & C); cbn; auto
              | cbn; auto]);
        destruct (clear_queues_wf q) as (CQ & CR & CS & _ & _ & CB & CZ) end.
      * destruct Hq as (_ & -> & _). apply ring_size_nonneg; exact R.
      * apply Hq2; [|destruct Hq as (_ & _ & E); rewrite CS; exact E].
        unfold player_wf. rewrite CS, CB, CZ. destruct Hq as (_ & -> & ->). auto.
    + apply Hq2; [|destruct (decoder_running (ctl p));
                    [apply (Hq1 p eq_refl eq_refl eq_refl) | reflexivity]].
      destruct (decoder_running (ctl p)); [|exact Hp].
      destruct (Hq1 p eq_refl eq_refl eq_refl) as (A & B & C).
      apply (player_wf_frame p); auto. rewrite C; reflexivity.
  - apply close_wf; exact Hp.
  - apply (player_wf_frame p); reflexivity || exact Hp.
  - apply (player_wf_frame p); reflexivity || exact Hp.
  - apply (player_wf_frame p); reflexivity || exact Hp.
Qed.

Lemma run_ops_wf :
  forall ops p, player_wf p -> forallb op_ok ops = true -> player_wf (run_ops p ops).
Proof.
  induction ops as [|op ops IH]; intros p Hp Hok; [exact Hp|].
  cbn in Hok. apply andb_prop in Hok as [H1 H2].
  unfold run_ops; cbn [fold_left]. apply IH; [apply apply_op_wf|]; auto.
Qed.

Lemma create_wf : player_wf prism_player_create.
Proof.
  unfold player_wf, vq_wf, ring_wf, prism_player_create, VIDEO_QUEUE_SIZE; cbn.
  repeat split; try lia; discriminate.
Qed.

(** ** Extra properties *)

(** Every player reachable from [prism_player_create] by any sequence of
    API calls and decoder iterations, with non-negative [max_samples] in
    every [prism_player_get_audio_samples], is well formed: at most 8
    queued frames, all valid, between consistent cursors; an audio ring
    with [0 <= available <= size] and consistent cursors; a resampler only
    with an allocated ring. *)
Theorem reachable_players_well_formed :
  forall ops, forallb op_ok ops = true -> player_wf (run_ops prism_player_create ops).
Proof.
  intros ops Hok. apply run_ops_wf; [exact create_wf | exact Hok].
Qed.

Lemma reachable_players_well_formed_witness :
  let ops := [OpOpen true av_probe; OpPlay 0;
              OpDecode 0 (ReadPacket 0 (VideoDecoded 7 0));
              OpDecode 0 (ReadPacket 1 (AudioDecoded (Some 0%Q) [1; 2; 3]));
              OpUpdate 0; OpGetVideoFrame; OpGetAudioSamples true 2;
              OpSeek 0 true; OpStop; OpClose] in
  forallb op_ok ops = true /\ player_wf (run_ops prism_player_create ops).
Proof.
  cbv zeta. split; [reflexivity|]. apply reachable_players_well_formed. reflexivity.
Defined.

(** [prism_player_get_audio_samples] with a non-negative [max_samples] on
    a well-formed ring returns [min available max_samples] samples, the
    oldest ones in order, and leaves exactly the rest in the ring. *)
Theorem get_audio_samples_fifo :
  forall p max_samples,
    ring_wf (ring p) -> audio_buffer (ring p) <> None -> 0 <= max_samples ->
    let '(n, out, p') := prism_player_get_audio_samples p true max_samples in
    n = Z.min (audio_available (ring p)) max_samples /\
    out = firstn (Z.to_nat n) (ring_contents (ring p)) /\
    ring_contents (ring p') = skipn (Z.to_nat n) (ring_contents (ring p)).
Proof.
  intros p m Hr Hb Hm.
  pose proof (get_audio_samples_read p m Hr Hb Hm) as G.
  destruct (prism_player_get_audio_samples p true m) as [[n out] p'].
  destruct G as (H1 & H2 & H3 & _). auto.
Qed.

Lemma get_audio_samples_fifo_witness :
  let p := set_ring (playing_player false 1) nearly_full_ring in
  (ring_wf (ring p) /\ audio_buffer (ring p) <> None /\ 0 <= 5) /\
  (let '(n, out, p') := prism_player_get_audio_samples p true 5 in
   n = Z.min (audio_available (ring p)) 5 /\
   out = firstn (Z.to_nat n) (ring_contents (ring p)) /\
   ring_contents (ring p') = skipn (Z.to_nat n) (ring_contents (ring p))).
Proof.
  cbv zeta. split.
  - split; [|split; [discriminate | lia]].
    unfold ring_wf; cbn; lia.
  - apply get_audio_samples_fifo; [unfold ring_wf; cbn; lia | discriminate | lia].
Defined.

(** The finite-source audio write stores, in order, as many of the new
    samples as there is free space, and drops the rest; the ring stays
    well formed. *)
Theorem finite_audio_write_keeps_what_fits :
  forall r samples,
    ring_wf r -> audio_buffer r <> None -> 0 < audio_buffer_size r ->
    ring_contents (write_audio false r samples) =
      ring_contents r ++ firstn (Z.to_nat (audio_buffer_size r - audio_available r)) samples /\
    ring_wf (write_audio false r samples).
Proof.
  intros r xs Hr Hb Hs. split.
  - apply ring_write_loop_fits; auto.
  - apply write_audio_wf; auto.
Qed.

Lemma finite_audio_write_keeps_what_fits_witness :
  (ring_wf nearly_full_ring /\ audio_buffer nearly_full_ring <> None /\
   0 < audio_buffer_size nearly_full_ring) /\
  ring_contents (write_audio false nearly_full_ring (map Z.of_nat (seq 1 15))) =
    ring_contents nearly_full_ring ++
    firstn (Z.to_nat (audio_buffer_size nearly_full_ring - audio_available nearly_full_ring))
           (map Z.of_nat (seq 1 15)) /\
  ring_wf (write_audio false nearly_full_ring (map Z.of_nat (seq 1 15))).
Proof.
  assert (H : ring_wf nearly_full_ring) by (unfold ring_wf; cbn; lia).
  split; [split; [exact H | split; [discriminate | vm_compute; reflexivity]]|].
  apply finite_audio_write_keeps_what_fits; [exact H | discriminate | vm_compute; reflexivity].
Defined.

(** Samples that fit are read back as written, after what was already
    buffered, for live and finite sources alike: a write followed by a
    read of everything available returns the old samples then the new
    ones, and empties the ring. *)
Theorem audio_write_then_read :
  forall live p samples,
    ring_wf (ring p) -> audio_buffer (ring p) <> None -> 0 < audio_buffer_size (ring p) ->
    audio_available (ring p) + Z.of_nat (length samples) <= audio_buffer_size (ring p) ->
    let total := audio_available (ring p) + Z.of_nat (length samples) in
    let '(n, out, p') :=
      prism_player_get_audio_samples (set_ring p (write_audio live (ring p) samples)) true total in
    n = total /\ out = ring_contents (ring p) ++ samples /\ audio_available (ring p') = 0.
Proof.
  intros live p xs Hr Hb Hs Hfit. cbv zeta.
  pose proof Hr as (Ha & Hrp & Hw0 & Hin). destruct (Hin Hs) as [Hrs Hw].
  assert (E : write_audio live (ring p) xs = ring_write_loop (ring p) xs).
  { unfold write_audio. destruct live; [|reflexivity].
    rewrite (proj2 (Z.ltb_ge _ _)) by lia. reflexivity. }
  rewrite E.
  set (r' := ring_write_loop (ring p) xs).
  assert (Wr : ring_wf r') by (apply ring_write_loop_wf; auto).
  assert (Br : audio_buffer r' <> None)
    by (intro N; apply (proj2 (ring_write_loop_shape xs (ring p))) in N; contradiction).
  assert (Cr : ring_contents r' = ring_contents (ring p) ++ xs)
    by (apply ring_write_loop_contents; auto; lia).
  destruct (ring_write_loop_counts xs (ring p)) as (Ar & _ & _ & _);
    [exact Hs | rewrite Hw; apply rem_range; lia | exact Hfit |].
  fold r' in Ar.
  pose proof (get_audio_samples_read (set_ring p r') (audio_available (ring p) + Z.of_nat (length xs))
                Wr Br ltac:(lia)) as G.
  destruct (prism_player_get_audio_samples _ _ _) as [[n out] p'].
  change (ring (set_ring p r')) with r' in G. rewrite Ar in G.
  destruct G as (Gn & Go & _ & _ & Ga & _).
  rewrite Z.min_id in Gn. subst n.
  split; [reflexivity|]. split.
  - rewrite Go, Cr. apply firstn_all2.
    rewrite length_app. unfold ring_contents. destruct (audio_buffer (ring p)); [|contradiction].
    rewrite length_map, length_seq. lia.
  - rewrite Ga. lia.
Qed.

Lemma audio_write_then_read_witness :
  let p := set_ring (playing_player true 1) nearly_full_ring in
  (ring_wf (ring p) /\ audio_buffer (ring p) <> None /\ 0 < audio_buffer_size (ring p) /\
   audio_available (ring p) + Z.of_nat (length [5; 6; 7]) <= audio_buffer_size (ring p)) /\
  (let total := audio_available (ring p) + Z.of_nat (length [5; 6; 7]) in
   let '(n, out, p') :=
     prism_player_get_audio_samples (set_ring p (write_audio true (ring p) [5; 6; 7])) true total in
   n = total /\ out = ring_contents (ring p) ++ [5; 6; 7] /\ audio_available (ring p') = 0).
Proof.
  cbv zeta.
  assert (H : ring_wf nearly_full_ring) by (unfold ring_wf; cbn; lia).
  split; [split; [exact H | split; [discriminate | split; vm_compute; first [reflexivity | discriminate]]]|].
  apply (audio_write_then_read true); [exact H | discriminate | vm_compute; reflexivity |
                                       vm_compute; discriminate].
Defined.

Lemma existsb_queue_contents :
  forall q, existsb valid (queue_contents q) = false <->
    forall i, (i < Z.to_nat (video_queue_count q))%nat ->
      valid (video_queue q (Z.rem (video_queue_read q + Z.of_nat i) VIDEO_QUEUE_SIZE)) = false.
Proof.
  intros q. unfold queue_contents. split.
  - intros X i Hi. destruct (valid _) eqn:V; [|reflexivity]. exfalso.
    assert (T : existsb valid (map (fun i => video_queue q
               (Z.rem (video_queue_read q + Z.of_nat i) VIDEO_QUEUE_SIZE))
               (seq 0 (Z.to_nat (video_queue_count q)))) = true).
    { apply existsb_exists. eexists; split; [apply in_map, in_seq; split; [lia|]; exact Hi|].
      exact V. }
    congruence.
  - intros A. destruct (existsb _ _) eqn:X; [|reflexivity].
    apply existsb_exists in X as (x & Hx & V).
    apply in_map_iff in Hx as (i & <- & Hi). apply in_seq in Hi.
    rewrite A in V by lia. discriminate.
Qed.

Lemma vq_wfb_sound : forall q, vq_wfb q = true -> vq_wf q.
Proof.
  intros q H. unfold vq_wfb in H.
  repeat (apply andb_prop in H as [H ?]).
  repeat match goal with
         | E : (_ <=? _) = true |- _ => apply Z.leb_le in E
         | E : (_ <? _) = true |- _ => apply Z.ltb_lt in E
         | E : (_ =? _) = true |- _ => apply Z.eqb_eq in E
         end.
  match goal with E : forallb valid _ = true |- _ => rename E into F end.
  unfold vq_wf. repeat split; try lia; try assumption.
  intros i Hi. rewrite forallb_forall in F. apply F.
  unfold queue_contents. apply in_map_iff. exists (Z.to_nat i). split.
  - rewrite Z2Nat.id by lia. reflexivity.
  - apply in_seq. lia.
Qed.

(** The live drain loop finds no entry exactly when every visited slot is
    invalid, and then changes no slot. *)
Lemma live_drain_none :
  forall q k, 0 <= video_queue_read q < VIDEO_QUEUE_SIZE ->
    let st := Nat.iter k live_drain_step (q, None) in
    (snd st = None -> video_queue (fst st) = video_queue q) /\
    (snd st = None <-> forall i, (i < k)%nat ->
       valid (video_queue q (Z.rem (video_queue_read q + Z.of_nat i) VIDEO_QUEUE_SIZE)) = false).
Proof.
  intros q k Hr; cbv zeta. induction k as [|k IH].
  - simpl Nat.iter; cbn [fst snd]. split; [auto|]. split; [intros _ i Hi; lia | auto].
  - pose proof (live_drain_iter q k Hr) as Hk; cbv zeta in Hk.
    destruct Hk as (Hread & _).
    rewrite Nat.iter_succ.
    destruct (Nat.iter k live_drain_step (q, None)) as [q' nw]. cbn [fst snd] in *.
    destruct IH as (Same & Iff).
    unfold live_drain_step.
    destruct nw as [j|].
    + assert (NotAll : ~ (forall i, (i < k)%nat ->
          valid (video_queue q (Z.rem (video_queue_read q + Z.of_nat i) VIDEO_QUEUE_SIZE)) = false))
        by (intro A; apply Iff in A; discriminate).
      destruct (valid _); cbn; (split; [discriminate|]); (split; [discriminate|]);
        intro A; exfalso; apply NotAll; intros i Hi; apply A; lia.
    + specialize (Same eq_refl).
      destruct (valid (video_queue q' (video_queue_read q'))) eqn:V; cbn.
      * split; [discriminate|]. split; [discriminate|]. intro A.
        specialize (A k ltac:(lia)). rewrite Same, Hread in V. congruence.
      * split; [intros _; exact Same|]. split; [intros _ i Hi|auto].
        destruct (Nat.eq_dec i k) as [->|Hne].
        -- rewrite Same, Hread in V; exact V.
        -- apply (proj1 Iff eq_refl); lia.
Qed.

(** For a live source, a tick of [prism_player_update] always empties the
    queue; it surfaces a frame exactly when the queue held a valid entry,
    and otherwise leaves the display slot and the clock alone and calls
    no callback. *)
Theorem live_update_drains_queue :
  forall p now,
    (state (ctl p) = PRISM_STATE_PLAYING \/ state (ctl p) = PRISM_STATE_END_OF_FILE) ->
    is_live (sess p) = true ->
    0 <= video_queue_read (vq p) < VIDEO_QUEUE_SIZE -> 0 <= video_queue_count (vq p) ->
    let '(n, p', cbs) := prism_player_update p now in
    video_queue_count (vq p') = 0 /\
    n = (if existsb valid (queue_contents (vq p)) then 1 else 0) /\
    (n = 0 -> disp p' = disp p /\ clk p' = clk p /\ cbs = []).
Proof.
  intros p now Hst Hlive Hr Hc.
  unfold prism_player_update. rewrite pump_runs by exact Hst. rewrite Hlive.
  unfold update_live, live_drain.
  pose proof (live_drain_iter (vq p) (Z.to_nat (video_queue_count (vq p))) Hr) as Hk.
  pose proof (live_drain_none (vq p) (Z.to_nat (video_queue_count (vq p))) Hr) as Hn.
  cbv zeta in Hk, Hn. destruct Hk as (_ & Dc & _). destruct Hn as (_ & Iff).
  destruct (Nat.iter _ _ _) as [q [j|]]; cbn [fst snd] in *.
  - unfold surface; cbn. split; [rewrite Dc; lia|]. split; [|intro; discriminate].
    destruct (existsb valid (queue_contents (vq p))) eqn:X; [reflexivity|].
    pose proof (proj2 Iff (proj1 (existsb_queue_contents _) X)). discriminate.
  - cbn. split; [rewrite Dc; lia|]. split; [|auto].
    destruct (existsb valid (queue_contents (vq p))) eqn:X; [|reflexivity].
    exfalso. assert (A : forall i, (i < Z.to_nat (video_queue_count (vq p)))%nat ->
      valid (video_queue (vq p) (Z.rem (video_queue_read (vq p) + Z.of_nat i)
                                       VIDEO_QUEUE_SIZE)) = false)
      by (apply Iff; reflexivity).
    apply (proj2 (existsb_queue_contents _)) in A. congruence.
Qed.

Lemma live_update_drains_queue_witness :
  let p := run_worker (playing_player true (-1)) 0 (video_packets 3) in
  ((state (ctl p) = PRISM_STATE_PLAYING \/ state (ctl p) = PRISM_STATE_END_OF_FILE) /\
   is_live (sess p) = true /\
   0 <= video_queue_read (vq p) < VIDEO_QUEUE_SIZE /\ 0 <= video_queue_count (vq p)) /\
  (let '(n, p', cbs) := prism_player_update p 0 in
   video_queue_count (vq p') = 0 /\
   n = (if existsb valid (queue_contents (vq p)) then 1 else 0) /\
   (n = 0 -> disp p' = disp p /\ clk p' = clk p /\ cbs = [])).
Proof.
  cbv zeta. split.
  - split; [left; vm_compute; reflexivity|]. split; [vm_compute; reflexivity|].
    vm_compute; repeat split; first [discriminate | reflexivity].
  - apply live_update_drains_queue;
      vm_compute; first [left; reflexivity | reflexivity |
                         repeat split; first [discriminate | reflexivity]].
Defined.

(** For a finite source with a well-formed queue, a tick of
    [prism_player_update] either changes nothing, or takes the oldest
    queued frame off the queue (the others stay, in order) and shows it:
    the display slot holds it and the clock's video and current position
    become its pts. *)
Theorem vod_update_pops_head :
  forall p now,
    vq_wf (vq p) -> is_live (sess p) = false ->
    (state (ctl p) = PRISM_STATE_PLAYING \/ state (ctl p) = PRISM_STATE_END_OF_FILE) ->
    let '(n, p', cbs) := prism_player_update p now in
    (n = 0 /\ p' = p /\ cbs = []) \/
    (n = 1 /\ exists e, queue_contents (vq p) = e :: queue_contents (vq p') /\
                        disp p' = show_entry (disp p) e /\
                        video_pts (clk p') = pts e /\ current_pts (clk p') = pts e).
Proof.
  intros p now Hq Hlive Hst.
  unfold prism_player_update. rewrite pump_runs by exact Hst. rewrite Hlive.
  pose proof Hq as (Hc & Hr & Hw & Hv).
  destruct (Z.eq_dec (video_queue_count (vq p)) 0) as [H0|H0].
  - rewrite H0. cbn. left; auto.
  - replace (Z.to_nat (video_queue_count (vq p)))
      with (S (Z.to_nat (video_queue_count (vq p) - 1))) by lia.
    cbn [update_vod].
    rewrite (proj2 (Z.leb_gt _ _)) by lia.
    assert (Hhead : valid (video_queue (vq p) (video_queue_read (vq p))) = true).
    { pose proof (Hv 0 ltac:(lia)) as V. rewrite Z.add_0_r, rem_small in V by exact Hr.
      exact V. }
    rewrite Hhead. cbn [negb].
    destruct (Qle_bool _ _); [|left; auto].
    right. split; [reflexivity|].
    exists (video_queue (vq p) (video_queue_read (vq p))).
    split; [apply (drop_oldest_wf (vq p) Hq ltac:(lia))|].
    cbn. auto.
Qed.

Lemma vod_update_pops_head_witness :
  let p := run_worker (playing_player false (-1)) 0 (video_packets 2) in
  (vq_wf (vq p) /\ is_live (sess p) = false /\
   (state (ctl p) = PRISM_STATE_PLAYING \/ state (ctl p) = PRISM_STATE_END_OF_FILE)) /\
  (let '(n, p', cbs) := prism_player_update p 0 in
   (n = 0 /\ p' = p /\ cbs = []) \/
   (n = 1 /\ exists e, queue_contents (vq p) = e :: queue_contents (vq p') /\
                       disp p' = show_entry (disp p) e /\
                       video_pts (clk p') = pts e /\ current_pts (clk p') = pts e)).
Proof.
  cbv zeta.
  assert (W : vq_wf (vq (run_worker (playing_player false (-1)) 0 (video_packets 2))))
    by (apply vq_wfb_sound; vm_compute; reflexivity).
  split; [split; [exact W | split; [vm_compute; reflexivity | left; vm_compute; reflexivity]]|].
  apply vod_update_pops_head; [exact W | vm_compute; reflexivity | left; vm_compute; reflexivity].
Defined.

(** Pushing a valid entry onto a well-formed queue keeps it well formed;
    the entry is appended when there is room; when the queue is full, a
    live source loses its oldest entry to make room and a finite source
    keeps the queue as it was (the new frame is lost). *)
Theorem push_video_appends :
  forall live q e, vq_wf q -> valid e = true ->
    vq_wf (push_video live q e) /\
    queue_contents (push_video live q e) =
      if video_queue_count q <? VIDEO_QUEUE_SIZE then queue_contents q ++ [e]
      else if live then tl (queue_contents q) ++ [e]
      else queue_contents q.
Proof.
  intros live q e Hq He. exact (push_video_wf live q e Hq He).
Qed.

Lemma push_video_appends_witness :
  let q := vq (run_worker (playing_player true (-1)) 0 (video_packets 8)) in
  let e := {| data := 9; width := 4; height := 2; stride := 16; pts := 9 # 30; valid := true |} in
  (vq_wf q /\ valid e = true) /\
  vq_wf (push_video true q e) /\
  queue_contents (push_video true q e) =
    if video_queue_count q <? VIDEO_QUEUE_SIZE then queue_contents q ++ [e]
    else if true then tl (queue_contents q) ++ [e]
    else queue_contents q.
Proof.
  cbv zeta.
  assert (W : vq_wf (vq (run_worker (playing_player true (-1)) 0 (video_packets 8))))
    by (apply vq_wfb_sound; vm_compute; reflexivity).
  split; [split; [exact W | reflexivity]|].
  apply push_video_appends; [exact W | reflexivity].
Defined.

(** The first decoded video frame of a finite source anchors the clock at
    its own pts and at the current wall-clock time, so a tick of
    [prism_player_update] at that same time shows it. *)
Theorem first_frame_anchors_clock :
  forall p now pix fpts,
    stop_requested (ctl p) = false -> state (ctl p) = PRISM_STATE_PLAYING ->
    is_live (sess p) = false -> first_frame_decoded (ctl p) = false ->
    has_video_codec_ctx (sess p) = true ->
    vq_wf (vq p) -> video_queue_count (vq p) = 0 ->
    let p' := worker_state (decoder_iteration p now
                (ReadPacket (video_stream_idx (sess p)) (VideoDecoded pix fpts))) in
    start_pts (clk p') = fpts /\ playback_start_time (clk p') = now /\
    first_frame_decoded (ctl p') = true /\
    let '(n, p'', _) := prism_player_update p' now in
    n = 1 /\ display_buffer (disp p'') = Some pix /\ display_pts (disp p'') = fpts.
Proof.
  intros p now pix fpts Hstop Hst Hlive Hff Hvc Hq Hc0. cbv zeta.
  pose proof Hq as (_ & Hr & Hw & _).
  assert (Hbp : backpressure p = false)
    by (unfold backpressure; rewrite Hlive, Hc0; reflexivity).
  assert (E : worker_state (decoder_iteration p now
                (ReadPacket (video_stream_idx (sess p)) (VideoDecoded pix fpts))) =
              decode_video p now pix fpts).
  { unfold decoder_iteration. rewrite Hstop, Hst, Hbp. cbn [negb PrismState_beq].
    rewrite Z.eqb_refl, Hvc. cbn [andb]. destruct (_ && _); reflexivity. }
  rewrite E.
  set (e := {| data := pix; width := video_width (sess p); height := video_height (sess p);
               stride := video_stride (sess p); pts := fpts; valid := true |}).
  assert (F : sess (decode_video p now pix fpts) = sess p /\
              ctl (decode_video p now pix fpts) = with_first_frame (ctl p) true /\
              start_pts (clk (decode_video p now pix fpts)) = fpts /\
              playback_start_time (clk (decode_video p now pix fpts)) = now /\
              vq (decode_video p now pix fpts) = push_video false (vq p) e)
    by (unfold decode_video; rewrite Hff; cbn; rewrite Hlive; auto).
  remember (decode_video p now pix fpts) as p1 eqn:Ep1. clear Ep1 E.
  destruct F as (Fs & Fc & Fst & Ft & Fq).
  split; [exact Fst|]. split; [exact Ft|]. split; [rewrite Fc; reflexivity|].
  destruct (queue_insert_wf (vq p) e Hq ltac:(rewrite Hc0; reflexivity) eq_refl) as [_ C].
  assert (Hpush : push_video false (vq p) e =
            {| video_queue := upd (video_queue (vq p)) (video_queue_write (vq p)) e;
               video_queue_write := Z.rem (video_queue_write (vq p) + 1) VIDEO_QUEUE_SIZE;
               video_queue_read := video_queue_read (vq p);
               video_queue_count := video_queue_count (vq p) + 1 |})
    by (unfold push_video; cbn; rewrite Hc0; reflexivity).
  unfold prism_player_update.
  rewrite pump_runs by (left; rewrite Fc; exact Hst).
  rewrite Fs, Hlive.
  assert (Hcnt : video_queue_count (vq p1) = 1) by (rewrite Fq, Hpush; cbn; rewrite Hc0; reflexivity).
  rewrite Hcnt. change (Z.to_nat 1) with 1%nat. cbn [update_vod]. rewrite Hcnt.
  change (1 <=? 0) with false. cbv iota.
  rewrite Fq, Hpush. cbn [video_queue video_queue_read video_queue_count].
  rewrite Hw, Hc0, Z.add_0_r, (rem_small _ _ Hr).
  assert (Hhead : upd (video_queue (vq p)) (video_queue_read (vq p)) e
                      (video_queue_read (vq p)) = e)
    by (unfold upd; rewrite Z.eqb_refl; reflexivity).
  rewrite !Hhead. cbn [negb valid e pts].
  assert (D : Qle_bool (fpts - playback_position p1 now) (16 # 1000) = true).
  { apply Qle_bool_iff. unfold playback_position. rewrite Fst, Ft, Z.sub_diag.
    assert (Z0 : (fpts - (fpts + inject_Z 0 / inject_Z 1000000 * speed (sess p1)) == 0)%Q)
      by (unfold Qdiv; ring).
    rewrite Z0. discriminate. }
  rewrite D. cbn. auto.
Qed.

Lemma first_frame_anchors_clock_witness :
  let p := playing_player false 1 in
  (stop_requested (ctl p) = false /\ state (ctl p) = PRISM_STATE_PLAYING /\
   is_live (sess p) = false /\ first_frame_decoded (ctl p) = false /\
   has_video_codec_ctx (sess p) = true /\ vq_wf (vq p) /\ video_queue_count (vq p) = 0) /\
  (let p' := worker_state (decoder_iteration p 5000
               (ReadPacket (video_stream_idx (sess p)) (VideoDecoded 42 (3 # 2)))) in
   start_pts (clk p') = 3 # 2 /\ playback_start_time (clk p') = 5000 /\
   first_frame_decoded (ctl p') = true /\
   let '(n, p'', _) := prism_player_update p' 5000 in
   n = 1 /\ display_buffer (disp p'') = Some 42 /\ display_pts (disp p'') = 3 # 2).
Proof.
  cbv zeta.
  assert (W : vq_wf (vq (playing_player false 1))) by (apply vq_wfb_sound; vm_compute; reflexivity).
  split; [exact (conj eq_refl (conj eq_refl (conj eq_refl (conj eq_refl
                  (conj eq_refl (conj W eq_refl))))))|].
  apply first_frame_anchors_clock; first [exact W | reflexivity].
Defined.

(** Once the first frame has anchored the clock, no decoder iteration
    other than an end-of-file one moves the anchor. *)
Theorem decoder_keeps_anchor :
  forall p now rd,
    first_frame_decoded (ctl p) = true -> rd <> ReadEOF ->
    let p' := worker_state (decoder_iteration p now rd) in
    start_pts (clk p') = start_pts (clk p) /\
    playback_start_time (clk p') = playback_start_time (clk p).
Proof.
  intros p now rd Hff Hrd. cbv zeta. unfold decoder_iteration.
  destruct (stop_requested (ctl p)); [auto|].
  destruct (negb _); [auto|]. destruct (backpressure p); [auto|].
  destruct rd as [| |si pl]; [contradiction | auto|].
  cbn [worker_state].
  destruct pl as [|pix fpts|apts samples]; split_ifs; try (cbn; auto; fail);
    unfold decode_video, decode_audio; rewrite ?Hff; try destruct apts; split_ifs; cbn; auto.
Qed.

Lemma decoder_keeps_anchor_witness :
  let p := run_worker (playing_player false 1) 0 (video_packets 1) in
  (first_frame_decoded (ctl p) = true /\ ReadPacket 0 (VideoDecoded 5 (5 # 30)) <> ReadEOF) /\
  (let p' := worker_state (decoder_iteration p 99 (ReadPacket 0 (VideoDecoded 5 (5 # 30)))) in
   start_pts (clk p') = start_pts (clk p) /\
   playback_start_time (clk p') = playback_start_time (clk p)).
Proof.
  cbv zeta. split; [split; [vm_compute; reflexivity | discriminate]|].
  apply decoder_keeps_anchor; [vm_compute; reflexivity | discriminate].
Defined.

(** End of file while the worker reads: with looping on and a finite
    source the worker rewinds and keeps going (state PLAYING, clock
    re-anchored at position 0 now, next frame re-syncs); otherwise the
    state becomes END_OF_FILE and the worker ends.  Queue and ring are
    untouched either way. *)
Theorem decoder_end_of_file :
  forall p now, worker_reads p = true ->
    match decoder_iteration p now ReadEOF with
    | Continue p' =>
        loop (sess p) && negb (is_live (sess p)) = true /\
        state (ctl p') = PRISM_STATE_PLAYING /\ first_frame_decoded (ctl p') = false /\
        playback_start_time (clk p') = now /\ start_pts (clk p') = 0%Q /\
        current_pts (clk p') = 0%Q /\ vq p' = vq p /\ ring p' = ring p
    | Exit p' =>
        loop (sess p) && negb (is_live (sess p)) = false /\
        state (ctl p') = PRISM_STATE_END_OF_FILE /\ clk p' = clk p /\
        vq p' = vq p /\ ring p' = ring p
    end.
Proof.
  intros p now H. unfold worker_reads in H.
  apply andb_prop in H as [H Hbp]. apply andb_prop in H as [Hstop Hst].
  apply negb_true_iff in Hstop, Hbp.
  pose proof (internal_PrismState_dec_bl _ _ Hst) as Hs.
  unfold decoder_iteration. rewrite Hstop, Hst, Hbp. cbn [negb].
  destruct (loop (sess p) && negb (is_live (sess p))) eqn:L; cbn; repeat split; auto.
Qed.

Lemma decoder_end_of_file_witness :
  let p := prism_player_set_loop (playing_player false (-1)) true in
  worker_reads p = true /\
  match decoder_iteration p 7 ReadEOF with
  | Continue p' =>
      loop (sess p) && negb (is_live (sess p)) = true /\
      state (ctl p') = PRISM_STATE_PLAYING /\ first_frame_decoded (ctl p') = false /\
      playback_start_time (clk p') = 7 /\ start_pts (clk p') = 0%Q /\
      current_pts (clk p') = 0%Q /\ vq p' = vq p /\ ring p' = ring p
  | Exit p' =>
      loop (sess p) && negb (is_live (sess p)) = false /\
      state (ctl p') = PRISM_STATE_END_OF_FILE /\ clk p' = clk p /\
      vq p' = vq p /\ ring p' = ring p
  end.
Proof.
  cbv zeta. split; [vm_compute; reflexivity|].
  apply decoder_end_of_file. vm_compute. reflexivity.
Defined.

(** Pausing a playing player returns OK and sets PAUSED; from then on a
    decoder iteration changes nothing; [prism_player_play] resumes
    (PLAYING), re-anchoring the clock at the paused position and the
    current time, with queue, ring and display as they were. *)
Theorem pause_then_play :
  forall p now now' rd,
    state (ctl p) = PRISM_STATE_PLAYING -> stop_requested (ctl p) = false ->
    let '(rc1, p1) := prism_player_pause p in
    rc1 = PRISM_OK /\ state (ctl p1) = PRISM_STATE_PAUSED /\
    decoder_iteration p1 now rd = Continue p1 /\
    let '(rc2, p2) := prism_player_play p1 now' in
    rc2 = PRISM_OK /\ state (ctl p2) = PRISM_STATE_PLAYING /\
    start_pts (clk p2) = current_pts (clk p) /\ playback_start_time (clk p2) = now' /\
    vq p2 = vq p /\ ring p2 = ring p /\ disp p2 = disp p.
Proof.
  intros p now now' rd Hst Hstop.
  unfold prism_player_pause. rewrite Hst. cbn [PrismState_beq].
  split; [reflexivity|]. split; [reflexivity|]. split.
  - unfold decoder_iteration. cbn. rewrite Hstop. reflexivity.
  - unfold prism_player_play, start_decoder_thread. cbn.
    destruct (decoder_running (ctl p)); cbn; repeat split; reflexivity.
Qed.

Lemma pause_then_play_witness :
  let p := playing_player false 1 in
  (state (ctl p) = PRISM_STATE_PLAYING /\ stop_requested (ctl p) = false) /\
  (let '(rc1, p1) := prism_player_pause p in
   rc1 = PRISM_OK /\ state (ctl p1) = PRISM_STATE_PAUSED /\
   decoder_iteration p1 3 ReadEOF = Continue p1 /\
   let '(rc2, p2) := prism_player_play p1 9 in
   rc2 = PRISM_OK /\ state (ctl p2) = PRISM_STATE_PLAYING /\
   start_pts (clk p2) = current_pts (clk p) /\ playback_start_time (clk p2) = 9 /\
   vq p2 = vq p /\ ring p2 = ring p /\ disp p2 = disp p).
Proof.
  cbv zeta. split; [split; reflexivity|].
  apply pause_then_play; reflexivity.
Defined.

(** [prism_player_stop] always returns OK and leaves a STOPPED player at
    position 0 with the decoder thread stopped and the queue, the ring
    and the display slot emptied; [prism_player_play] then starts from
    position 0 with a fresh decoder thread. *)
Theorem stop_then_play :
  forall p now,
    let '(rc, p1) := prism_player_stop p in
    rc = PRISM_OK /\ state (ctl p1) = PRISM_STATE_STOPPED /\ current_pts (clk p1) = 0%Q /\
    first_frame_decoded (ctl p1) = false /\ decoder_running (ctl p1) = false /\
    queue_contents (vq p1) = [] /\ ring_contents (ring p1) = [] /\
    display_ready (disp p1) = false /\
    let '(rc2, p2) := prism_player_play p1 now in
    rc2 = PRISM_OK /\ state (ctl p2) = PRISM_STATE_PLAYING /\ start_pts (clk p2) = 0%Q /\
    playback_start_time (clk p2) = now /\ decoder_running (ctl p2) = true /\
    stop_requested (ctl p2) = false.
Proof.
  intros p now. unfold prism_player_stop, stop_decoder_thread.
  unfold queue_contents, ring_contents, prism_player_play, start_decoder_thread.
  destruct (decoder_running (ctl p)) eqn:R; cbn; rewrite ?R; cbn;
    (destruct (audio_buffer (ring p)); cbn);
    repeat split; auto.
Qed.

(** Seeking a finite source: on success the position becomes the target,
    the next decoded frame re-anchors the clock, queue, ring and display
    slot are emptied, and the state is kept; on failure SEEK_FAILED is
    returned and clock, queue, ring, display and state are kept.  Either
    way the decoder thread is running afterwards only if it was running
    and the state is PLAYING. *)
Theorem seek_finite :
  forall p pos ok,
    has_format_ctx (sess p) = true -> is_live (sess p) = false ->
    let '(rc, p') := prism_player_seek p pos ok in
    state (ctl p') = state (ctl p) /\
    decoder_running (ctl p') =
      decoder_running (ctl p) && PrismState_beq (state (ctl p)) PRISM_STATE_PLAYING /\
    if ok then
      rc = PRISM_OK /\ current_pts (clk p') = pos /\ first_frame_decoded (ctl p') = false /\
      queue_contents (vq p') = [] /\ ring_contents (ring p') = [] /\
      display_ready (disp p') = false
    else
      rc = PRISM_ERROR_SEEK_FAILED /\ clk p' = clk p /\ vq p' = vq p /\
      ring p' = ring p /\ disp p' = disp p.
Proof.
  intros p pos ok Hf Hl. unfold prism_player_seek. rewrite Hf, Hl. cbn [negb].
  unfold stop_decoder_thread, start_decoder_thread, queue_contents, ring_contents.
  destruct (decoder_running (ctl p)) eqn:R;
    destruct (PrismState_beq (state (ctl p)) PRISM_STATE_PLAYING) eqn:S;
    destruct ok; cbn; rewrite ?R, ?S; cbn;
    try (destruct (audio_buffer (ring p)); cbn);
    repeat split; auto.
Qed.

Lemma seek_finite_witness :
  let p := snd (prism_player_pause (playing_player false 1)) in
  (has_format_ctx (sess p) = true /\ is_live (sess p) = false) /\
  let '(rc, p') := prism_player_seek p (3 # 1) false in
  state (ctl p') = state (ctl p) /\
  decoder_running (ctl p') =
    decoder_running (ctl p) && PrismState_beq (state (ctl p)) PRISM_STATE_PLAYING /\
  rc = PRISM_ERROR_SEEK_FAILED /\ clk p' = clk p /\ vq p' = vq p /\
  ring p' = ring p /\ disp p' = disp p.
Proof.
  cbv zeta. split; [split; reflexivity|].
  apply (seek_finite _ (3 # 1) false); reflexivity.
Defined.

(** After [prism_player_close] the player is IDLE with no stream, no
    contexts, no audio buffer, an empty queue and no decoder thread, and
    every call that needs an open file refuses or does nothing. *)
Theorem close_resets :
  forall p now pos ok max,
    let p' := prism_player_close p in
    state (ctl p') = PRISM_STATE_IDLE /\
    video_stream_idx (sess p') = -1 /\ audio_stream_idx (sess p') = -1 /\
    has_format_ctx (sess p') = false /\ audio_buffer (ring p') = None /\
    queue_contents (vq p') = [] /\ decoder_running (ctl p') = false /\
    prism_player_update p' now = (0, p', []) /\
    prism_player_seek p' pos ok = (PRISM_ERROR_INVALID_PLAYER, p') /\
    prism_player_get_audio_samples p' true max = (0, [], p') /\
    prism_player_play p' now = (PRISM_ERROR_NOT_READY, p') /\
    prism_player_get_audio_sample_rate p' = 0 /\ prism_player_get_audio_channels p' = 0.
Proof.
  intros p now pos ok max. cbv zeta.
  unfold prism_player_close, stop_decoder_thread, queue_contents.
  destruct (decoder_running (ctl p)) eqn:R; cbn; rewrite ?R; cbn; repeat split.
Qed.

Lemma find_stream_ge :
  forall t l i j, find_stream t l i = Some j -> i <= j.
Proof.
  intros t l. induction l as [|x rest IH]; intros i j H; cbn in H; [discriminate|].
  destruct (MediaType_beq x t); [injection H; lia|].
  apply IH in H. lia.
Qed.

Lemma close_stream_indices :
  forall p, video_stream_idx (sess (prism_player_close p)) = -1 /\
            audio_stream_idx (sess (prism_player_close p)) = -1.
Proof. intros p. split; reflexivity. Qed.

(** [prism_player_open_with_options] with a URL returns OK exactly when
    the input opens, its stream info is found, it has a video or an audio
    stream, and a video stream, if any, has a decoder that opens; a
    missing or failing audio decoder does not fail the call.  The state is
    then READY, and ERROR otherwise. *)
Theorem open_outcome :
  forall p m,
    let '(rc, p') := prism_player_open p true m in
    (rc = PRISM_OK <->
       probe_open_ok m = true /\ probe_stream_info_ok m = true /\
       stream_present AVMEDIA_TYPE_VIDEO (probe_streams m)
         || stream_present AVMEDIA_TYPE_AUDIO (probe_streams m) = true /\
       (stream_present AVMEDIA_TYPE_VIDEO (probe_streams m) = true ->
          probe_video_codec_found m = true /\ probe_video_codec_open_ok m = true)) /\
    (rc = PRISM_OK -> state (ctl p') = PRISM_STATE_READY) /\
    (rc <> PRISM_OK -> state (ctl p') = PRISM_STATE_ERROR).
Proof.
  intros p m. unfold prism_player_open. cbn [negb].
  destruct (close_stream_indices p) as [Hv Ha].
  cbn [sess set_ctl]. rewrite Hv, Ha.
  unfold stream_present.
  destruct (probe_open_ok m); [|cbn; intuition discriminate].
  destruct (probe_stream_info_ok m); [|cbn; intuition discriminate].
  destruct (find_stream AVMEDIA_TYPE_VIDEO (probe_streams m) 0) as [iv|] eqn:EV;
    [apply find_stream_ge in EV;
     replace (iv <? 0) with false by (symmetry; apply Z.ltb_ge; lia);
     replace (0 <=? iv) with true by (symmetry; apply Z.leb_le; lia)|];
  (destruct (find_stream AVMEDIA_TYPE_AUDIO (probe_streams m) 0) as [ia|] eqn:EA;
    [apply find_stream_ge in EA;
     replace (ia <? 0) with false by (symmetry; apply Z.ltb_ge; lia);
     replace (0 <=? ia) with true by (symmetry; apply Z.leb_le; lia)|]);
  cbn [andb orb negb Z.ltb Z.leb Z.compare];
  destruct (probe_video_codec_found m); destruct (probe_video_codec_open_ok m);
  cbn; intuition (try discriminate; try congruence).
Qed.

(** A successful open leaves a READY-to-play player: liveness from the
    unknown duration, no decoder thread, empty queue, ring and display;
    the resampler (and the ring of [opened_audio_ring]) exactly when an
    audio stream's decoder is found and opens, the audio sample rate
    reported when its decoder is found, and the RGBA stride [width * 4]
    of the video stream. *)
Theorem open_success_state :
  forall p m,
    fst (prism_player_open p true m) = PRISM_OK ->
    let p' := snd (prism_player_open p true m) in
    let has_a := stream_present AVMEDIA_TYPE_AUDIO (probe_streams m) in
    is_live (sess p') = negb (probe_duration_known m) /\
    decoder_running (ctl p') = false /\ first_frame_decoded (ctl p') = false /\
    queue_contents (vq p') = [] /\ ring_contents (ring p') = [] /\
    display_ready (disp p') = false /\
    has_swr_ctx (sess p') = has_a && probe_audio_codec_found m && probe_audio_codec_open_ok m /\
    (has_swr_ctx (sess p') = true -> ring p' = opened_audio_ring) /\
    prism_player_get_audio_sample_rate p' =
      (if has_a && probe_audio_codec_found m then 48000 else 0) /\
    (stream_present AVMEDIA_TYPE_VIDEO (probe_streams m) = true ->
       video_width (sess p') = probe_video_width m /\
       video_height (sess p') = probe_video_height m /\
       video_stride (sess p') = probe_video_width m * 4).
Proof.
  intros p m H. cbv zeta. revert H. unfold prism_player_open. cbn [negb].
  destruct (close_stream_indices p) as [Hv Ha].
  cbn [sess set_ctl]. rewrite Hv, Ha.
  unfold stream_present.
  destruct (probe_open_ok m); [|cbn; discriminate].
  destruct (probe_stream_info_ok m); [|cbn; discriminate].
  destruct (find_stream AVMEDIA_TYPE_VIDEO (probe_streams m) 0) as [iv|] eqn:EV;
    [apply find_stream_ge in EV;
     replace (iv <? 0) with false by (symmetry; apply Z.ltb_ge; lia);
     replace (0 <=? iv) with true by (symmetry; apply Z.leb_le; lia)|];
  (destruct (find_stream AVMEDIA_TYPE_AUDIO (probe_streams m) 0) as [ia|] eqn:EA;
    [apply find_stream_ge in EA;
     replace (ia <? 0) with false by (symmetry; apply Z.ltb_ge; lia);
     replace (0 <=? ia) with true by (symmetry; apply Z.leb_le; lia)|]);
  cbn [andb orb negb Z.ltb Z.leb Z.compare];
  destruct (probe_video_codec_found m); destruct (probe_video_codec_open_ok m);
  cbn; try discriminate; intros _;
  destruct (probe_audio_codec_found m); destruct (probe_audio_codec_open_ok m);
  unfold prism_player_close, stop_decoder_thread, queue_contents, ring_contents;
  destruct (decoder_running (ctl p)) eqn:R; cbn; rewrite ?R; cbn;
  repeat split; intros; auto; try discriminate.
Qed.

Lemma open_success_state_witness :
  fst (prism_player_open prism_player_create true av_probe) = PRISM_OK /\
  let p' := snd (prism_player_open prism_player_create true av_probe) in
  let has_a := stream_present AVMEDIA_TYPE_AUDIO (probe_streams av_probe) in
  is_live (sess p') = negb (probe_duration_known av_probe) /\
  decoder_running (ctl p') = false /\ first_frame_decoded (ctl p') = false /\
  queue_contents (vq p') = [] /\ ring_contents (ring p') = [] /\
  display_ready (disp p') = false /\
  has_swr_ctx (sess p') =
    has_a && probe_audio_codec_found av_probe && probe_audio_codec_open_ok av_probe /\
  (has_swr_ctx (sess p') = true -> ring p' = opened_audio_ring) /\
  prism_player_get_audio_sample_rate p' =
    (if has_a && probe_audio_codec_found av_probe then 48000 else 0) /\
  (stream_present AVMEDIA_TYPE_VIDEO (probe_streams av_probe) = true ->
     video_width (sess p') = probe_video_width av_probe /\
     video_height (sess p') = probe_video_height av_probe /\
     video_stride (sess p') = probe_video_width av_probe * 4).
Proof.
  split; [vm_compute; reflexivity|].
  apply open_success_state. vm_compute. reflexivity.
Defined.

End Prism.
